(** * Batch generator of marian ([src/data/batch_generator.h])

    A shallow embedding of [marian::data::BatchGenerator]: the window
    (maxi-batch) that is filled from the dataset iterator, the cutting of
    the window into batches under the three sizing policies, the one-slot
    prefetch hand-off of [next], and [prepare] / [restore].

    Conventions.
    - Container sizes ([size()] of a vector, deque or queue) are [nat]; the
      two [int] options that are converted to [size_t] go through the
      conversion written out below.
    - The background task of [fetchBatchesAsync] is run at the join
      ([futureBufferedBatches_.get()]): the fields the worker uses are
      written by the consumer only in [prepare] and at the start of
      [restore], before the task is scheduled, so the slot is a flag "a
      task is pending" and the worker's effects happen at the join.
    - A forward iterator into the dataset is the suffix of the sample stream
      that starts at the element it points to; [end()] is the empty suffix. *)

From Stdlib Require Import String.
From Stdlib Require Import List ZArith Lia Bool Permutation PeanoNat.
Import ListNotations.

Set Implicit Arguments.

(** ** Samples and batches *)

Definition Word := nat.
Definition Item := list Word.          (* Sample::value_type: one field *)
Definition Sample := list Item.        (* a tuple of fields *)
Definition Samples := list Sample.     (* std::vector<Sample> *)

(** Modelled from the spec: the tensorizer [DataSet::toBatch] and the batch
    type are external; the core observes only [size()].  A batch is the
    vector of samples it was built from. *)
Definition Batch := Samples.
Definition toBatch (batchVector : Samples) : Batch := batchVector.
Definition size (b : Batch) : nat := length b.
Definition BatchPtr := option Batch.   (* nullptr is None *)

(** ** Results of operations that can abort or fail to return *)

Inductive outcome (A : Type) : Type :=
| Ret (a : A)
| Abort (msg : string)
| OutOfFuel.

Arguments Ret {A} a.
Arguments Abort {A} msg.
Arguments OutOfFuel {A}.

Definition bind {A B : Type} (m : outcome A) (k : A -> outcome B) : outcome B :=
  match m with
  | Ret a => k a
  | Abort msg => Abort msg
  | OutOfFuel => OutOfFuel
  end.

Notation "x <- m ;; k" := (bind m (fun x => k))
  (at level 61, m at next level, right associativity).

(** ** size_t arithmetic on option values *)

Definition size_t_of_int (z : Z) : nat := Z.to_nat (z mod 2 ^ 64).
Definition size_t_mul (a b : nat) : nat :=
  Z.to_nat ((Z.of_nat a * Z.of_nat b) mod 2 ^ 64).

(** ** The comparators of [fetchBatches] *)

(* sort by element length, not content *)
Definition itemCmp (sa sb : Item) : bool := length sa <? length sb.

(* std::lexicographical_compare(first1, last1, first2, last2, comp) *)
Fixpoint lexicographical_compare {A : Type} (comp : A -> A -> bool)
         (a b : list A) : bool :=
  match a, b with
  | _, [] => false
  | [], _ :: _ => true
  | x :: a', y :: b' =>
      if comp x y then true
      else if comp y x then false
      else lexicographical_compare comp a' b'
  end.

Definition cmpSrc (a b : Sample) : bool :=
  lexicographical_compare itemCmp a b.

Definition cmpTrg (a b : Sample) : bool :=
  lexicographical_compare itemCmp (rev a) (rev b).

(** ** std::priority_queue<Sample, Samples, cmp_type>

    The queue is its underlying vector in push order.  [top()] is a
    greatest element under the comparator (for a less-than comparator the
    standard's queue is a max-heap).  Which of several equivalent greatest
    elements is on top the standard leaves to the heap; here the one pushed
    first is taken, which is not the order of any particular library's
    heap, and no property below is about the order among equivalent
    samples. *)

Section PriorityQueue.
Variable cmp : Sample -> Sample -> bool.

(* the greatest of x :: l and the others, in push order *)
Fixpoint pq_select (x : Sample) (l : list Sample) : Sample * list Sample :=
  match l with
  | [] => (x, [])
  | y :: l' =>
      let (m, r) := pq_select y l' in
      if cmp x m then (m, x :: r) else (x, y :: l')
  end.

Definition pq_push (s : Sample) (q : list Sample) : list Sample := q ++ [s].

Definition pq_top (q : list Sample) : option Sample :=
  match q with
  | [] => None
  | x :: l => Some (fst (pq_select x l))
  end.

Definition pq_pop (q : list Sample) : list Sample :=
  match q with
  | [] => []
  | x :: l => snd (pq_select x l)
  end.

Definition pq_empty (q : list Sample) : bool :=
  match q with [] => true | _ :: _ => false end.

Definition pq_size (q : list Sample) : nat := length q.
End PriorityQueue.

(** ** Options *)

Record Options := {
  maxi_batch_sort : option string;   (* has("maxi-batch-sort") / get<string> *)
  mini_batch : Z;                    (* get<int>("mini-batch") *)
  maxi_batch : Z;                    (* get<int>("maxi-batch") *)
  mini_batch_words : nat;            (* get<size_t>("mini-batch-words", 0) *)
  mini_batch_fit : bool;             (* has("mini-batch-fit") *)
  no_restore_corpus : bool           (* get<bool>("no-restore-corpus") *)
}.

(** Modelled from the spec: the BatchStats oracle is external; it maps the
    per-field maximum lengths to a batch size, and its answer does not
    depend on the lookup hint (the code aborts otherwise). *)
Definition BatchStats := list nat -> nat.

(** ** The cutting loop of [fetchBatches]

    The locals of the second [while] loop. *)

Record CutState := {
  maxiBatch : list Sample;       (* the priority queue *)
  batchVector : Samples;
  currentWords : nat;
  lengths : list nat;            (* maximum length per field in the batch *)
  maxBatchSize : nat;
  tempBatches : list Batch
}.

(* for(i < sets) if(back[i].size() > lengths[i]) lengths[i] = back[i].size() *)
Fixpoint record_max (i : nat) (back : Sample) (lengths : list nat) : list nat :=
  match lengths with
  | [] => []
  | l :: ls =>
      (if l <? length (nth i back []) then length (nth i back []) else l)
        :: record_max (S i) back ls
  end.

Section Cut.
Variable cmp : Sample -> Sample -> bool.
Variable options_ : Options.
Variable stats_ : option BatchStats.
Variable sets : nat.

Definition mbWords : nat := mini_batch_words options_.
Definition useDynamicBatching : bool := mini_batch_fit options_.

(* if(makeBatch) { tempBatches.push_back(toBatch(batchVector)); ... } *)
Definition emit_if (makeBatch : bool) (q : list Sample) (bv : Samples)
           (words : nat) (lens : list nat) (mbs : nat)
           (temp : list Batch) : CutState :=
  if makeBatch
  then {| maxiBatch := q; batchVector := []; currentWords := 0;
          lengths := repeat 0 sets; maxBatchSize := mbs;
          tempBatches := temp ++ [toBatch bv] |}
  else {| maxiBatch := q; batchVector := bv; currentWords := words;
          lengths := lens; maxBatchSize := mbs; tempBatches := temp |}.

(* one iteration of while(!maxiBatch->empty()), entered with top() = s *)
Definition cut_body (s : Sample) (st : CutState) : CutState :=
  let bv := batchVector st ++ [s] in           (* push_back(top()) *)
  let q := pq_pop cmp (maxiBatch st) in        (* pop() *)
  match useDynamicBatching, stats_ with
  | true, Some findBatchSize =>
      let lens := record_max 0 (last bv []) (lengths st) in
      let mbs := findBatchSize lens in
      let makeBatch := mbs <=? length bv in
      if mbs <? length bv
      then emit_if makeBatch (pq_push (last bv []) q) (removelast bv)
                   (currentWords st) lens mbs (tempBatches st)
      else emit_if makeBatch q bv (currentWords st) lens mbs (tempBatches st)
  | _, _ =>
      if 0 <? mbWords
      then
        let words := currentWords st + length (nth 0 (last bv []) []) in
        emit_if (mbWords <? words) q bv words (lengths st)
                (maxBatchSize st) (tempBatches st)
      else
        emit_if (length bv =? maxBatchSize st) q bv (currentWords st)
                (lengths st) (maxBatchSize st) (tempBatches st)
  end.

Definition cut_step (st : CutState) : CutState :=
  match pq_top cmp (maxiBatch st) with
  | Some s => cut_body s st
  | None => st
  end.

(* while(!maxiBatch->empty()) ...; None when the fuel runs out first *)
Fixpoint cut_loop (fuel : nat) (st : CutState) : option CutState :=
  if pq_empty (maxiBatch st) then Some st
  else match fuel with
       | 0 => None
       | S fuel' => cut_loop fuel' (cut_step st)
       end.

(* if(!batchVector.empty()) tempBatches.push_back(toBatch(batchVector)) *)
Definition turn_rest_into_batch (st : CutState) : list Batch :=
  match batchVector st with
  | [] => tempBatches st
  | _ :: _ => tempBatches st ++ [toBatch (batchVector st)]
  end.
End Cut.

(** ** Filling the window

    [while(current_ != data_->end() && maxiBatch->size() < maxSize)]; the
    result is the iterator, the queue and [sets].  When the push fills the
    window ([last]) the iterator stays on the sample just pushed and the
    loop test fails on the size. *)

Fixpoint read_loop (current_ : list Sample) (q : list Sample) (sets : nat)
         (maxSize : nat) : list Sample * list Sample * nat :=
  match current_ with
  | [] => ([], q, sets)
  | s :: rest =>
      if pq_size q <? maxSize then
        let q' := pq_push s q in
        let last := pq_size q' =? maxSize in
        if negb last
        then read_loop rest q' (length s) maxSize    (* ++current_ *)
        else (current_, q', length s)
      else (current_, q, sets)
  end.

(** ** The generator *)

Section Generator.
(** The collaborators.  The dataset is a state with the sample stream that
    [begin()]..[end()] walks through and its epoch operations; the engine
    of [RNGEngine] is a state that [std::shuffle] consumes. *)
Variable DataSet : Type.
Variable RNGState : Type.

Record TrainingState := {
  epochs : nat;
  batchesEpoch : nat;
  batches : nat;
  seedBatch : RNGState
}.

Variable ds_stream : DataSet -> list Sample.
Variable ds_shuffle : DataSet -> DataSet.
Variable ds_reset : DataSet -> DataSet.
Variable ds_restore : TrainingState -> DataSet -> DataSet.
Variable std_shuffle : RNGState -> list Batch -> list Batch * RNGState.

(** [cmpNone] is [&a < &b]: it compares the addresses of its arguments,
    which the values of the samples do not carry.  It is an arbitrary
    relation here; the properties hold for every such relation and use
    nothing of it. *)
Variable cmpNone : Sample -> Sample -> bool.

Record BatchGenerator := {
  data_ : DataSet;
  options_ : Options;
  restored_ : bool;
  shuffle_ : bool;
  stats_ : option BatchStats;
  bufferedBatches_ : list Batch;       (* std::deque<BatchPtr> *)
  current_ : list Sample;              (* DataSet::iterator *)
  newlyPrepared_ : bool;
  futureBufferedBatches_ : bool;       (* valid(): a task is pending *)
  eng_ : RNGState
}.

(* BatchGenerator(data, options, stats); shuffle_ has no initializer *)
Definition BatchGenerator_new (data : DataSet) (options : Options)
           (stats : option BatchStats) (eng : RNGState)
           (uninit : bool) : BatchGenerator :=
  {| data_ := data; options_ := options; restored_ := false;
     shuffle_ := uninit; stats_ := stats; bufferedBatches_ := [];
     current_ := []; newlyPrepared_ := true;
     futureBufferedBatches_ := false; eng_ := eng |}.

(* the comparator handed to the priority queue *)
Definition select_cmp (o : Options) : Sample -> Sample -> bool :=
  match maxi_batch_sort o with
  | Some v =>
      if String.eqb v "src"%string then cmpSrc
      else if String.eqb v "none"%string then cmpNone
      else cmpTrg
  | None => cmpNone
  end.

Definition maxSize_of (o : Options) : nat :=
  size_t_mul (size_t_of_int (mini_batch o)) (size_t_of_int (maxi_batch o)).

(* where the iterator stands when the reading loop starts *)
Definition start_of (g : BatchGenerator) : list Sample :=
  if newlyPrepared_ g then ds_stream (data_ g)       (* data_->begin() *)
  else match current_ g with
       | [] => []                                    (* current_ == end() *)
       | _ :: rest => rest                           (* ++current_ *)
       end.

(* the window: iterator after the reading loop, queue, sets *)
Definition fill_window (g : BatchGenerator) : list Sample * list Sample * nat :=
  read_loop (start_of g) [] 0 (maxSize_of (options_ g)).

Definition fetchBatches (fuel : nat) (g : BatchGenerator)
  : option (list Batch * BatchGenerator) :=
  let cmp := select_cmp (options_ g) in
  let maxBatchSize := size_t_of_int (mini_batch (options_ g)) in
  let '(cur, q, sets) := fill_window g in
  let st0 := {| maxiBatch := q; batchVector := []; currentWords := 0;
                lengths := repeat 0 sets; maxBatchSize := maxBatchSize;
                tempBatches := [] |} in
  match cut_loop cmp (options_ g) (stats_ g) sets fuel st0 with
  | None => None
  | Some st =>
      let temp := turn_rest_into_batch st in
      let (temp', eng') :=
        if shuffle_ g then std_shuffle (eng_ g) temp else (temp, eng_ g) in
      Some (temp',
            {| data_ := data_ g; options_ := options_ g;
               restored_ := restored_ g; shuffle_ := shuffle_ g;
               stats_ := stats_ g; bufferedBatches_ := bufferedBatches_ g;
               current_ := cur; newlyPrepared_ := false;
               futureBufferedBatches_ := futureBufferedBatches_ g;
               eng_ := eng' |})
  end.

Definition set_future (v : bool) (g : BatchGenerator) : BatchGenerator :=
  {| data_ := data_ g; options_ := options_ g; restored_ := restored_ g;
     shuffle_ := shuffle_ g; stats_ := stats_ g;
     bufferedBatches_ := bufferedBatches_ g; current_ := current_ g;
     newlyPrepared_ := newlyPrepared_ g; futureBufferedBatches_ := v;
     eng_ := eng_ g |}.

Definition set_buffered (b : list Batch) (g : BatchGenerator) : BatchGenerator :=
  {| data_ := data_ g; options_ := options_ g; restored_ := restored_ g;
     shuffle_ := shuffle_ g; stats_ := stats_ g;
     bufferedBatches_ := b; current_ := current_ g;
     newlyPrepared_ := newlyPrepared_ g;
     futureBufferedBatches_ := futureBufferedBatches_ g; eng_ := eng_ g |}.

Definition set_restored (v : bool) (g : BatchGenerator) : BatchGenerator :=
  {| data_ := data_ g; options_ := options_ g; restored_ := v;
     shuffle_ := shuffle_ g; stats_ := stats_ g;
     bufferedBatches_ := bufferedBatches_ g; current_ := current_ g;
     newlyPrepared_ := newlyPrepared_ g;
     futureBufferedBatches_ := futureBufferedBatches_ g; eng_ := eng_ g |}.

Definition msg_restart : string :=
  "attempted to restart futureBufferedBatches_ while still running"%string.
Definition msg_wait : string :=
  "attempted to wait for futureBufferedBatches_ when none pending"%string.

Definition fetchBatchesAsync (g : BatchGenerator) : outcome BatchGenerator :=
  if futureBufferedBatches_ g then Abort msg_restart
  else Ret (set_future true g).

(* auto batch = bufferedBatches_.front(); bufferedBatches_.pop_front(); *)
Definition pop_front (g : BatchGenerator) : outcome (BatchPtr * BatchGenerator) :=
  match bufferedBatches_ g with
  | batch :: rest => Ret (Some batch, set_buffered rest g)
  | [] => Abort "front() of an empty deque"%string
  end.

Definition next (fuel : nat) (g : BatchGenerator)
  : outcome (BatchPtr * BatchGenerator) :=
  match bufferedBatches_ g with
  | [] =>
      if negb (futureBufferedBatches_ g) then Abort msg_wait
      else
        match fetchBatches fuel g with          (* futureBufferedBatches_.get() *)
        | None => OutOfFuel
        | Some (swath, g1) =>
            let g2 := set_buffered swath (set_future false g1) in
            match swath with
            | [] => Ret (None, g2)              (* end of the epoch *)
            | _ :: _ => g3 <- fetchBatchesAsync g2 ;; pop_front g3
            end
        end
  | _ :: _ => pop_front g
  end.

Definition prepare (shuffle : bool) (g : BatchGenerator) : outcome BatchGenerator :=
  if restored_ g then Ret (set_restored false g)
  else
    fetchBatchesAsync
      {| data_ := if shuffle then ds_shuffle (data_ g) else ds_reset (data_ g);
         options_ := options_ g; restored_ := restored_ g;
         shuffle_ := shuffle; stats_ := stats_ g;
         bufferedBatches_ := bufferedBatches_ g; current_ := current_ g;
         newlyPrepared_ := true;
         futureBufferedBatches_ := futureBufferedBatches_ g;
         eng_ := eng_ g |}.

(* for(size_t i = 0; i < state->batchesEpoch; ++i) next(); *)
Fixpoint fast_forward (fuel : nat) (n : nat) (g : BatchGenerator)
  : outcome BatchGenerator :=
  match n with
  | 0 => Ret g
  | S n' => r <- next fuel g ;; fast_forward fuel n' (snd r)
  end.

(* data_->restore(state); setRNGState(state->seedBatch); *)
Definition restore_seed (state : TrainingState) (g : BatchGenerator)
  : BatchGenerator :=
  {| data_ := ds_restore state (data_ g); options_ := options_ g;
     restored_ := restored_ g; shuffle_ := shuffle_ g; stats_ := stats_ g;
     bufferedBatches_ := bufferedBatches_ g; current_ := current_ g;
     newlyPrepared_ := newlyPrepared_ g;
     futureBufferedBatches_ := futureBufferedBatches_ g;
     eng_ := seedBatch state |}.

Definition restore (fuel : nat) (state : TrainingState) (shuffle : bool)
           (g : BatchGenerator) : outcome (bool * BatchGenerator) :=
  if (epochs state =? 1) && (batchesEpoch state =? 0) then Ret (false, g)
  else if no_restore_corpus (options_ g) then Ret (false, g)
  else
    let g1 := if 1 <? epochs state then restore_seed state g else g in
    g2 <- prepare shuffle g1 ;;
    g3 <- fast_forward fuel (batchesEpoch state) g2 ;;
    Ret (true, set_restored true g3).

(** The batches of an epoch as the consumer sees them: [next] is called
    until it returns null, at most [n] times. *)
Fixpoint drain (fuel : nat) (n : nat) (g : BatchGenerator)
  : outcome (list Batch * BatchGenerator) :=
  match n with
  | 0 => OutOfFuel
  | S n' =>
      r <- next fuel g ;;
      match fst r with
      | None => Ret ([], snd r)
      | Some batch =>
          r' <- drain fuel n' (snd r) ;;
          Ret (batch :: fst r', snd r')
      end
  end.

(** ** Vocabulary for the properties of the generator *)

(** The samples the reading loop pushes: [numSentencesRead] of them. *)
Definition window (g : BatchGenerator) : list Sample := snd (fst (fill_window g)).

(** Where the reading loop leaves the iterator. *)
Definition window_end (g : BatchGenerator) : list Sample := fst (fst (fill_window g)).

(** The batches before the shuffle. *)
Definition cut_window (fuel : nat) (g : BatchGenerator) : option (list Batch) :=
  let '(_, q, sets) := fill_window g in
  match cut_loop (select_cmp (options_ g)) (options_ g) (stats_ g) sets fuel
          {| maxiBatch := q; batchVector := []; currentWords := 0;
             lengths := repeat 0 sets;
             maxBatchSize := size_t_of_int (mini_batch (options_ g));
             tempBatches := [] |} with
  | Some st => Some (turn_rest_into_batch st)
  | None => None
  end.

(** The state [next] leaves behind when it had to join the worker and the
    worker delivered [swath]. *)
Definition joined (g : BatchGenerator) (swath : list Batch) (eng : RNGState) : BatchGenerator :=
  {| data_ := data_ g; options_ := options_ g; restored_ := restored_ g;
     shuffle_ := shuffle_ g; stats_ := stats_ g;
     bufferedBatches_ := tl swath;
     current_ := window_end g; newlyPrepared_ := false;
     futureBufferedBatches_ := match swath with [] => false | _ :: _ => true end;
     eng_ := eng |}.

(** The dataset as [prepare] leaves it for the epoch. *)
Definition epoch_data (shuffle : bool) (g : BatchGenerator) : DataSet :=
  if shuffle then ds_shuffle (data_ g) else ds_reset (data_ g).

(** The state [prepare] produces from a generator that may be prepared: no
    task pending, not just restored. *)
Definition prepared (shuffle : bool) (g : BatchGenerator) : BatchGenerator :=
  {| data_ := epoch_data shuffle g; options_ := options_ g;
     restored_ := false; shuffle_ := shuffle; stats_ := stats_ g;
     bufferedBatches_ := bufferedBatches_ g; current_ := current_ g;
     newlyPrepared_ := true; futureBufferedBatches_ := true;
     eng_ := eng_ g |}.

(** The states the generator passes through when a client drives it
    through its interface ([begin()] and the iterator's increment are calls
    of [next]) without the process aborting; [reach_seed] is the first
    step of [restore], so that the calls of [next] inside [restore] start
    from such states too. *)
Inductive reachable : BatchGenerator -> Prop :=
| reach_new data options stats eng uninit :
    reachable (BatchGenerator_new data options stats eng uninit)
| reach_seed g state :
    reachable g -> reachable (restore_seed state g)
| reach_prepare g shuffle g' :
    reachable g -> prepare shuffle g = Ret g' -> reachable g'
| reach_next g fuel r g' :
    reachable g -> next fuel g = Ret (r, g') -> reachable g'
| reach_restore g fuel state shuffle b g' :
    reachable g -> restore fuel state shuffle g = Ret (b, g') -> reachable g'.

(** While batches are buffered, the next window is scheduled. *)
Definition slot_covers_buffer (g : BatchGenerator) : Prop :=
  bufferedBatches_ g <> [] -> futureBufferedBatches_ g = true.

(** [n] calls of [next] in a row, each returning (a batch or null), the
    results dropped. *)
Inductive next_times (fuel : nat) : nat -> BatchGenerator -> BatchGenerator -> Prop :=
| next_times_0 g : next_times fuel 0 g g
| next_times_S n g r g' g'' :
    next fuel g = Ret (r, g') ->
    next_times fuel n g' g'' ->
    next_times fuel (S n) g g''.

End Generator.

(** ** Vocabulary for the properties of the cutting loop *)

(** Every sample of the window is in the queue, in the batch being
    assembled or in an emitted batch. *)
Definition contents (st : CutState) : list Sample :=
  maxiBatch st ++ batchVector st ++ concat (tempBatches st).

(** The oracle never answers 0 (it is asked only under dynamic batching). *)
Definition oracle_positive (o : Options) (stats : option BatchStats) : Prop :=
  match mini_batch_fit o, stats with
  | true, Some findBatchSize => forall lens, 0 < findBatchSize lens
  | _, _ => True
  end.

Definition cut_measure (st : CutState) : nat :=
  2 * length (maxiBatch st)
  + match batchVector st with [] => 0 | _ :: _ => 1 end.

(** The number of words of field 0 over the samples of a batch. *)
Definition words0 (b : Batch) : nat :=
  list_sum (map (fun s : Sample => length (nth 0 s [])) b).

(** A batch that went over the budget with its last sample. *)
Definition over_budget (budget : nat) (b : Batch) : Prop :=
  budget < words0 b /\ words0 (removelast b) <= budget.

(** The branch [else if(mbWords > 0)] is the one taken. *)
Definition word_budget_active (o : Options) (stats : option BatchStats) : Prop :=
  0 < mini_batch_words o /\ (mini_batch_fit o = false \/ stats = None).

(** What the cutting loop keeps true under the word budget. *)
Definition budget_inv (o : Options) (st : CutState) : Prop :=
  currentWords st = words0 (batchVector st) /\
  currentWords st <= mini_batch_words o /\
  Forall (over_budget (mini_batch_words o)) (tempBatches st).

(** * Concrete collaborators and inputs

    A dataset that is a list of samples which its epoch operations leave in
    place, an engine that is a counter, a shuffle that reverses, and for
    [cmpNone] the relation that never holds. *)

Module Scenario.

Definition DS := list Sample.
Definition RNG := nat.
Definition stream (d : DS) : list Sample := d.
Definition keep (d : DS) : DS := d.
Definition restore_ds (_ : TrainingState RNG) (d : DS) : DS := d.
Definition shuffle_batches (eng : RNG) (l : list Batch) : list Batch * RNG :=
  (rev l, S eng).
Definition none_order (_ _ : Sample) : bool := false.

(* a sample with one field of n words *)
Definition sample_of_length (n : nat) : Sample := [repeat 0 n].

Definition generator (data : DS) (options : Options)
           (stats : option BatchStats) : BatchGenerator DS RNG :=
  BatchGenerator_new data options stats 0 false.

Definition prepare_ (shuffle : bool) (g : BatchGenerator DS RNG) :=
  prepare keep keep shuffle g.
Definition next_ (fuel : nat) (g : BatchGenerator DS RNG) :=
  next stream shuffle_batches none_order fuel g.

(** The batches of one epoch: [prepare], then [next] until null. *)
Definition epoch (fuel n : nat) (shuffle : bool) (g : BatchGenerator DS RNG)
  : outcome (list Batch) :=
  g1 <- prepare_ shuffle g ;;
  r <- drain stream shuffle_batches none_order fuel n g1 ;;
  Ret (fst r).

(** What [n] calls of [next] in a row return, up to the first that does
    not return. *)
Fixpoint next_results (fuel n : nat) (g : BatchGenerator DS RNG)
  : list (outcome BatchPtr) :=
  match n with
  | 0 => []
  | S n' =>
      match next_ fuel g with
      | Ret (r, g') => Ret r :: next_results fuel n' g'
      | Abort msg => [Abort msg]
      | OutOfFuel => [OutOfFuel]
      end
  end.

(** Scenario 1 of the spec: ten samples, mini-batch 3, maxi-batch 2,
    sort by src, no shuffle. *)
Definition scenario1_data : DS :=
  map sample_of_length [3; 7; 1; 5; 2; 8; 4; 6; 9; 10].

Definition scenario1_options : Options :=
  {| maxi_batch_sort := Some "src"%string; mini_batch := 3; maxi_batch := 2;
     mini_batch_words := 0; mini_batch_fit := false;
     no_restore_corpus := false |}.

Definition scenario1 : BatchGenerator DS RNG :=
  generator scenario1_data scenario1_options None.

(** Two samples in one window sorted by src. *)
Definition two_samples_options : Options :=
  {| maxi_batch_sort := Some "src"%string; mini_batch := 2; maxi_batch := 1;
     mini_batch_words := 0; mini_batch_fit := false;
     no_restore_corpus := false |}.

(** A dataset of one sample, prepared for its epoch. *)
Definition one_sample_options : Options :=
  {| maxi_batch_sort := None; mini_batch := 1; maxi_batch := 1;
     mini_batch_words := 0; mini_batch_fit := false;
     no_restore_corpus := false |}.

Definition one_sample : BatchGenerator DS RNG :=
  prepared keep keep false (generator [sample_of_length 1] one_sample_options None).

(** The samples of scenario 1 under a word budget of 10, sort none. *)
Definition scenario2_options : Options :=
  {| maxi_batch_sort := Some "none"%string; mini_batch := 3; maxi_batch := 2;
     mini_batch_words := 10; mini_batch_fit := false;
     no_restore_corpus := false |}.

Definition scenario2 : BatchGenerator DS RNG :=
  prepared keep keep false (generator scenario1_data scenario2_options None).

Definition empty_dataset : BatchGenerator DS RNG :=
  generator [] one_sample_options None.

(** An oracle that allows two samples, and one once a field has 5 words. *)
Definition small_oracle : BatchStats :=
  fun lens => if existsb (fun l => 5 <=? l) lens then 1 else 2.

Definition fit_options : Options :=
  {| maxi_batch_sort := Some "src"%string; mini_batch := 3; maxi_batch := 2;
     mini_batch_words := 0; mini_batch_fit := true;
     no_restore_corpus := false |}.


Definition resumed : TrainingState RNG :=
  {| epochs := 2; batchesEpoch := 1; batches := 5; seedBatch := 7 |}.

Definition fresh : TrainingState RNG :=
  {| epochs := 1; batchesEpoch := 0; batches := 0; seedBatch := 0 |}.

Definition no_restore_options : Options :=
  {| maxi_batch_sort := None; mini_batch := 1; maxi_batch := 1;
     mini_batch_words := 0; mini_batch_fit := false;
     no_restore_corpus := true |}.


End Scenario.

(** * Further vocabulary

    The other two sizing policies, and the iterator over the batches. *)

(** The branch [else makeBatch = batchVector.size() == maxBatchSize] is the
    one taken. *)
Definition fixed_count_active (o : Options) (stats : option BatchStats) : Prop :=
  mini_batch_words o = 0 /\ (mini_batch_fit o = false \/ stats = None).

(** What the cutting loop keeps true under the fixed count [m]. *)
Definition fixed_inv (m : nat) (st : CutState) : Prop :=
  maxBatchSize st = m /\
  (0 < m -> length (batchVector st) < m) /\
  Forall (fun b : Batch => size b = m) (tempBatches st).

(** The maximum length per field over the samples of a batch, as the loop
    records it in [lengths]. *)
Definition field_maxima (sets : nat) (b : Batch) : list nat :=
  fold_left (fun lens s => record_max 0 s lens) b (repeat 0 sets).

(** A batch is within the size the oracle allows for its own lengths. *)
Definition fits (findBatchSize : BatchStats) (sets : nat) (b : Batch) : Prop :=
  size b <= findBatchSize (field_maxima sets b).

(** What the cutting loop keeps true under dynamic batching. *)
Definition fit_inv (findBatchSize : BatchStats) (sets : nat) (st : CutState) : Prop :=
  lengths st = field_maxima sets (batchVector st) /\
  (batchVector st <> [] -> length (batchVector st) < findBatchSize (lengths st)) /\
  Forall (fits findBatchSize sets) (tempBatches st).

Section Iterator.
Variable DataSet : Type.
Variable RNGState : Type.
Variable ds_stream : DataSet -> list Sample.
Variable std_shuffle : RNGState -> list Batch -> list Batch * RNGState.
Variable cmpNone : Sample -> Sample -> bool.

(** [sets] after the reading loop: the number of fields of the last sample
    read. *)
Definition window_sets (g : BatchGenerator DataSet RNGState) : nat :=
  snd (fill_window ds_stream g).

(** The iterator over the batches of a generator.  [bg_] is the generator
    the operations are given; what the iterator holds is [current_]. *)
Record BatchIterator := { it_current_ : BatchPtr }.

(* iterator(this, next()) *)
Definition begin_ (fuel : nat) (g : BatchGenerator DataSet RNGState)
  : outcome (BatchIterator * BatchGenerator DataSet RNGState) :=
  r <- next ds_stream std_shuffle cmpNone fuel g ;;
  Ret ({| it_current_ := fst r |}, snd r).

(* iterator(this, nullptr) *)
Definition end_ : BatchIterator := {| it_current_ := None |}.

(* current_ = bg_->next() *)
Definition increment (fuel : nat) (it : BatchIterator)
           (g : BatchGenerator DataSet RNGState)
  : outcome (BatchIterator * BatchGenerator DataSet RNGState) :=
  r <- next ds_stream std_shuffle cmpNone fuel g ;;
  Ret ({| it_current_ := fst r |}, snd r).

Definition dereference (it : BatchIterator) : BatchPtr := it_current_ it.

(** [equal] against [end()]: [current_ == nullptr]. *)
Definition equal_end (it : BatchIterator) : bool :=
  match it_current_ it with None => true | Some _ => false end.

(** [for(it = begin(); it != end(); ++it)] collecting [*it], at most [n]
    turns. *)
Fixpoint range_for (fuel n : nat) (it : BatchIterator)
         (g : BatchGenerator DataSet RNGState)
  : outcome (list Batch * BatchGenerator DataSet RNGState) :=
  match n with
  | 0 => OutOfFuel
  | S n' =>
      if equal_end it then Ret ([], g)
      else
        match dereference it with
        | Some batch =>
            r <- increment fuel it g ;;
            r' <- range_for fuel n' (fst r) (snd r) ;;
            Ret (batch :: fst r', snd r')
        | None => Ret ([], g)
        end
  end.

Definition for_each_batch (fuel n : nat) (g : BatchGenerator DataSet RNGState)
  : outcome (list Batch * BatchGenerator DataSet RNGState) :=
  r <- begin_ fuel g ;; range_for fuel n (fst r) (snd r).
End Iterator.

(** Further inputs. *)

Module MoreScenario.
Import Scenario.

(** Scenario 1 with its samples under dynamic batching. *)
Definition fit_scenario : BatchGenerator DS RNG :=
  prepared keep keep false (generator scenario1_data fit_options (Some small_oracle)).

(** Scenario 1 prepared for its epoch. *)
Definition scenario1_prepared : BatchGenerator DS RNG :=
  prepared keep keep false scenario1.

(** A window capacity of 0 over a dataset that has samples. *)
Definition zero_capacity_options : Options :=
  {| maxi_batch_sort := None; mini_batch := 0; maxi_batch := 5;
     mini_batch_words := 0; mini_batch_fit := false;
     no_restore_corpus := false |}.

Definition zero_capacity : BatchGenerator DS RNG :=
  generator scenario1_data zero_capacity_options None.

(** A training state that claims more batches than scenario 1's epoch has. *)
Definition too_far : TrainingState RNG :=
  {| epochs := 1; batchesEpoch := 6; batches := 6; seedBatch := 0 |}.

(** The batches of scenario 1's epoch and the state it ends in. *)
Definition scenario1_batches : list Batch :=
  match drain stream shuffle_batches none_order 20 5 scenario1_prepared with
  | Ret r => fst r
  | _ => []
  end.

Definition scenario1_drained : BatchGenerator DS RNG :=
  match drain stream shuffle_batches none_order 20 5 scenario1_prepared with
  | Ret r => snd r
  | _ => scenario1_prepared
  end.

(** Scenario 1 after [restore] in epoch 2 with one batch consumed. *)
Definition scenario1_resumed : BatchGenerator DS RNG :=
  match restore stream keep keep restore_ds shuffle_batches none_order
                20 resumed false scenario1 with
  | Ret r => snd r
  | _ => scenario1
  end.
End MoreScenario.

(** * Properties *)

(** ** The priority queue *)

Section PriorityQueueFacts.
Variable cmp : Sample -> Sample -> bool.

Lemma pq_select_perm (l : list Sample) :
  forall x m r, pq_select cmp x l = (m, r) -> Permutation (x :: l) (m :: r).
Proof.
  induction l as [|y l IH]; intros x m r H; simpl in H.
  - inversion H; subst. apply Permutation_refl.
  - destruct (pq_select cmp y l) as [m' r'] eqn:E.
    specialize (IH y m' r' E).
    destruct (cmp x m'); inversion H; subst.
    + apply perm_trans with (x :: m :: r').
      * now apply perm_skip.
      * apply perm_swap.
    + apply Permutation_refl.
Qed.

Lemma pq_top_pop_perm (q : list Sample) (s : Sample) :
  pq_top cmp q = Some s -> Permutation q (s :: pq_pop cmp q).
Proof.
  destruct q as [|x l]; simpl; intros H; [discriminate|].
  inversion H; subst.
  apply pq_select_perm. now destruct (pq_select cmp x l).
Qed.

Lemma pq_top_nonempty (q : list Sample) :
  pq_empty q = false -> exists s, pq_top cmp q = Some s.
Proof.
  destruct q as [|x l]; simpl; [discriminate|]. intros _. eexists; reflexivity.
Qed.

Lemma pq_top_empty (q : list Sample) :
  pq_empty q = true -> q = [].
Proof. destruct q; simpl; [reflexivity|discriminate]. Qed.

Lemma pq_pop_length (q : list Sample) (s : Sample) :
  pq_top cmp q = Some s -> length q = S (length (pq_pop cmp q)).
Proof.
  intros H. apply pq_top_pop_perm in H.
  apply Permutation_length in H. exact H.
Qed.

Lemma pq_push_length (s : Sample) (q : list Sample) :
  length (pq_push s q) = S (length q).
Proof. unfold pq_push. rewrite length_app. simpl. lia. Qed.

Lemma pq_push_perm (s : Sample) (q : list Sample) :
  Permutation (pq_push s q) (s :: q).
Proof.
  unfold pq_push. apply Permutation_sym, Permutation_cons_append.
Qed.
End PriorityQueueFacts.

(** The queue hands out a greatest sample: under a comparator that is
    asymmetric and whose complement is transitive (as the two length
    orders are), no sample of the queue is greater than the top, and no
    sample is popped before a greater one. *)

Lemma lexicographical_compare_asym (a : Sample) :
  forall b, lexicographical_compare itemCmp a b = true ->
            lexicographical_compare itemCmp b a = false.
Proof.
  unfold itemCmp.
  induction a as [|x a IH]; intros [|y b]; simpl; try congruence.
  destruct (length x <? length y) eqn:E1, (length y <? length x) eqn:E2;
    try congruence.
  - apply Nat.ltb_lt in E1, E2. lia.
  - apply IH.
Qed.

Lemma lexicographical_compare_negtrans (a : Sample) :
  forall b c, lexicographical_compare itemCmp a b = false ->
              lexicographical_compare itemCmp b c = false ->
              lexicographical_compare itemCmp a c = false.
Proof.
  unfold itemCmp.
  induction a as [|x a IH]; intros [|y b] [|z c]; simpl; try congruence.
  destruct (length x <? length y) eqn:E1, (length y <? length x) eqn:E2,
           (length y <? length z) eqn:E3, (length z <? length y) eqn:E4,
           (length x <? length z) eqn:E5, (length z <? length x) eqn:E6;
    try congruence;
    repeat match goal with
           | H : (_ <? _) = true |- _ => apply Nat.ltb_lt in H
           | H : (_ <? _) = false |- _ => apply Nat.ltb_ge in H
           end; try lia.
  apply IH.
Qed.

Section Greatest.
Variable cmp : Sample -> Sample -> bool.
Hypothesis cmp_asym : forall a b, cmp a b = true -> cmp b a = false.
Hypothesis cmp_negtrans :
  forall a b c, cmp a b = false -> cmp b c = false -> cmp a c = false.

Lemma cmp_irrefl (a : Sample) : cmp a a = false.
Proof.
  destruct (cmp a a) eqn:E; [|reflexivity].
  apply cmp_asym in E as E'. congruence.
Qed.

Lemma pq_select_greatest (l : list Sample) :
  forall x m r, pq_select cmp x l = (m, r) ->
                forall y, In y (x :: l) -> cmp m y = false.
Proof.
  induction l as [|z l IH]; intros x m r H y Hy; simpl in H.
  - inversion H; subst. destruct Hy as [<- | []]. apply cmp_irrefl.
  - destruct (pq_select cmp z l) as [m' r'] eqn:E.
    specialize (IH z m' r' E).
    destruct (cmp x m') eqn:Hx; inversion H; subst.
    + destruct Hy as [<- | Hy]; [now apply cmp_asym|now apply IH].
    + destruct Hy as [<- | Hy]; [apply cmp_irrefl|].
      apply cmp_negtrans with m'; [exact Hx|now apply IH].
Qed.

Lemma pq_top_greatest (q : list Sample) (s : Sample) :
  pq_top cmp q = Some s -> forall y, In y q -> cmp s y = false.
Proof.
  intros Htop y Hy. destruct q as [|x l]; [discriminate|].
  simpl in Htop. inversion Htop; subst.
  destruct (pq_select cmp x l) as [m r] eqn:E. simpl.
  eapply pq_select_greatest; eassumption.
Qed.

Lemma pops_never_increase (q : list Sample) (s s' : Sample) :
  pq_top cmp q = Some s ->
  pq_top cmp (pq_pop cmp q) = Some s' ->
  cmp s s' = false.
Proof.
  intros Htop Htop'.
  eapply pq_top_greatest; [exact Htop|].
  eapply Permutation_in;
    [apply Permutation_sym, pq_top_pop_perm; exact Htop|].
  right.
  eapply Permutation_in;
    [apply Permutation_sym, pq_top_pop_perm; exact Htop'|].
  now left.
Qed.
End Greatest.

Lemma src_pops_never_increase (q : list Sample) (s s' : Sample) :
  pq_top cmpSrc q = Some s ->
  pq_top cmpSrc (pq_pop cmpSrc q) = Some s' ->
  cmpSrc s s' = false.
Proof.
  apply pops_never_increase.
  - intros a b. apply lexicographical_compare_asym.
  - intros a b c. apply lexicographical_compare_negtrans.
Qed.

Lemma trg_pops_never_increase (q : list Sample) (s s' : Sample) :
  pq_top cmpTrg q = Some s ->
  pq_top cmpTrg (pq_pop cmpTrg q) = Some s' ->
  cmpTrg s s' = false.
Proof.
  apply pops_never_increase.
  - intros a b. apply lexicographical_compare_asym.
  - intros a b c. apply lexicographical_compare_negtrans.
Qed.

Lemma last_snoc (A : Type) (l : list A) (x d : A) : last (l ++ [x]) d = x.
Proof. apply last_last. Qed.

Lemma removelast_snoc (A : Type) (l : list A) (x : A) : removelast (l ++ [x]) = l.
Proof. apply removelast_last. Qed.

(** ** Filling the window: what the reading loop pushes and where it
    leaves the iterator *)

Lemma read_loop_spec (maxSize : nat) (cur : list Sample) :
  forall q sets cur' q' sets',
    read_loop cur q sets maxSize = (cur', q', sets') ->
    exists k,
      q' = q ++ firstn k cur /\ k <= length cur /\
      (length q < maxSize -> length q' <= maxSize) /\
      ((* the stream ran out *)
       (cur' = [] /\ k = length cur) \/
       (* the window is full: the iterator stays on the last sample pushed *)
       (0 < k /\ length q' = maxSize /\ cur' = skipn (k - 1) cur) \/
       (* nothing could be pushed *)
       (k = 0 /\ maxSize <= length q /\ cur' = cur)).
Proof.
  induction cur as [|s rest IH]; intros q sets cur' q' sets' H; simpl in H.
  - inversion H; subst. exists 0. simpl. rewrite app_nil_r.
    split; [reflexivity|]. split; [lia|]. split; [lia|]. left; auto.
  - unfold pq_size in H.
    destruct (length q <? maxSize) eqn:Hlt.
    + apply Nat.ltb_lt in Hlt.
      destruct (length (pq_push s q) =? maxSize) eqn:Heq; simpl in H.
      * apply Nat.eqb_eq in Heq. inversion H; subst.
        exists 1. simpl.
        split; [reflexivity|]. split; [lia|]. split; [lia|].
        right; left. split; [lia|]. split; reflexivity.
      * apply Nat.eqb_neq in Heq.
        apply IH in H. destruct H as (k & Hq & Hk & Hle & Hcases).
        rewrite pq_push_length in *.
        exists (S k). simpl. unfold pq_push in Hq.
        rewrite <- app_assoc in Hq. simpl in Hq.
        split; [exact Hq|]. split; [lia|]. split; [lia|].
        destruct Hcases as [[-> ->]|[(Hk0 & Hfull & ->)|(-> & Hge & ->)]].
        -- left; auto.
        -- right; left. split; [lia|]. split; [exact Hfull|].
           rewrite Nat.sub_0_r. destruct k; [lia|]. simpl.
           now rewrite Nat.sub_0_r.
        -- lia.
    + apply Nat.ltb_ge in Hlt. inversion H; subst.
      exists 0. simpl. rewrite app_nil_r.
      split; [reflexivity|]. split; [lia|]. split; [lia|].
      right; right. auto.
Qed.

(** ** The cutting loop: nothing is lost, and it ends *)

Section CutFacts.
Variable cmp : Sample -> Sample -> bool.
Variable o : Options.
Variable stats : option BatchStats.
Variable sets : nat.

Lemma emit_if_contents mk q bv w l m temp :
  Permutation (contents (emit_if sets mk q bv w l m temp))
              (q ++ bv ++ concat temp).
Proof.
  unfold emit_if, contents, toBatch. destruct mk; simpl.
  - rewrite concat_app. simpl. rewrite app_nil_r.
    apply Permutation_app_head, Permutation_app_comm.
  - apply Permutation_refl.
Qed.

Lemma emit_if_queue mk q bv w l m temp :
  maxiBatch (emit_if sets mk q bv w l m temp) = q.
Proof. unfold emit_if. now destruct mk. Qed.

Lemma emit_if_batchVector mk q bv w l m temp :
  batchVector (emit_if sets mk q bv w l m temp) = if mk then [] else bv.
Proof. unfold emit_if. now destruct mk. Qed.

Lemma cut_body_contents (s : Sample) (st : CutState) :
  pq_top cmp (maxiBatch st) = Some s ->
  Permutation (contents (cut_body cmp o stats sets s st)) (contents st).
Proof.
  intros Htop. apply pq_top_pop_perm in Htop.
  assert (Hnormal : Permutation
            (pq_pop cmp (maxiBatch st) ++ (batchVector st ++ [s])
               ++ concat (tempBatches st))
            (contents st)).
  { unfold contents.
    apply perm_trans with
      ((s :: pq_pop cmp (maxiBatch st)) ++ batchVector st
         ++ concat (tempBatches st)).
    - simpl. rewrite <- app_assoc. simpl.
      apply Permutation_sym. rewrite !app_assoc.
      apply Permutation_cons_app, Permutation_refl.
    - apply Permutation_app_tail. now apply Permutation_sym. }
  assert (Hback : Permutation
            (pq_push s (pq_pop cmp (maxiBatch st)) ++ batchVector st
               ++ concat (tempBatches st))
            (contents st)).
  { unfold contents. apply Permutation_app_tail.
    apply perm_trans with (s :: pq_pop cmp (maxiBatch st)).
    - apply pq_push_perm.
    - now apply Permutation_sym. }
  unfold cut_body, useDynamicBatching, mbWords.
  rewrite last_snoc, removelast_snoc.
  destruct (mini_batch_fit o); [destruct stats as [f|]|];
    repeat match goal with
           | |- context [if ?c then _ else _] => destruct c
           end;
    (eapply perm_trans; [apply emit_if_contents|]); assumption.
Qed.

Lemma cut_step_contents (st : CutState) :
  Permutation (contents (cut_step cmp o stats sets st)) (contents st).
Proof.
  unfold cut_step. destruct (pq_top cmp (maxiBatch st)) eqn:E.
  - now apply cut_body_contents.
  - apply Permutation_refl.
Qed.

Lemma cut_loop_contents (fuel : nat) :
  forall st st', cut_loop cmp o stats sets fuel st = Some st' ->
                 maxiBatch st' = [] /\ Permutation (contents st') (contents st).
Proof.
  induction fuel as [|fuel IH]; intros st st' H; simpl in H;
    destruct (pq_empty (maxiBatch st)) eqn:E.
  - inversion H; subst. split; [now apply pq_top_empty|apply Permutation_refl].
  - discriminate.
  - inversion H; subst. split; [now apply pq_top_empty|apply Permutation_refl].
  - apply IH in H. destruct H as [Hq Hp]. split; [exact Hq|].
    eapply perm_trans; [exact Hp|apply cut_step_contents].
Qed.

Lemma cut_step_measure (st : CutState) :
  oracle_positive o stats ->
  pq_empty (maxiBatch st) = false ->
  cut_measure (cut_step cmp o stats sets st) < cut_measure st.
Proof.
  intros Hpos Hne.
  destruct (pq_top_nonempty cmp _ Hne) as [s Hs].
  unfold cut_step. rewrite Hs.
  pose proof (pq_pop_length cmp _ Hs) as Hlen.
  unfold cut_body, useDynamicBatching, mbWords, oracle_positive in *.
  rewrite last_snoc, removelast_snoc.
  unfold cut_measure.
  destruct (mini_batch_fit o); [destruct stats as [f|]|].
  - specialize (Hpos (record_max 0 s (lengths st))).
    rewrite length_app. simpl.
    destruct (f (record_max 0 s (lengths st)) <? length (batchVector st) + 1) eqn:Hlt.
    + apply Nat.ltb_lt in Hlt.
      assert (Hmk : (f (record_max 0 s (lengths st)) <=? length (batchVector st) + 1) = true)
        by (apply Nat.leb_le; lia).
      rewrite Hmk, emit_if_queue, emit_if_batchVector, pq_push_length.
      destruct (batchVector st); simpl in *; lia.
    + rewrite emit_if_queue, emit_if_batchVector.
      destruct (f (record_max 0 s (lengths st)) <=? length (batchVector st) + 1);
        [|destruct (batchVector st); simpl]; lia.
  - destruct (0 <? mini_batch_words o);
      rewrite emit_if_queue, emit_if_batchVector;
      match goal with |- context [if ?c then _ else _] => destruct c end;
      try (destruct (batchVector st); simpl); lia.
  - destruct (0 <? mini_batch_words o);
      rewrite emit_if_queue, emit_if_batchVector;
      match goal with |- context [if ?c then _ else _] => destruct c end;
      try (destruct (batchVector st); simpl); lia.
Qed.

Lemma cut_loop_total (Hpos : oracle_positive o stats) (fuel : nat) :
  forall st, cut_measure st <= fuel ->
             exists st', cut_loop cmp o stats sets fuel st = Some st'.
Proof.
  induction fuel as [|fuel IH]; intros st Hm; simpl;
    destruct (pq_empty (maxiBatch st)) eqn:E; try (eexists; reflexivity).
  - exfalso. unfold cut_measure in Hm.
    destruct (maxiBatch st); simpl in *; [discriminate|lia].
  - apply IH. pose proof (cut_step_measure st Hpos E). lia.
Qed.
End CutFacts.

Lemma Permutation_concat (A : Type) (l l' : list (list A)) :
  Permutation l l' -> Permutation (concat l) (concat l').
Proof.
  induction 1; simpl.
  - apply Permutation_refl.
  - now apply Permutation_app_head.
  - rewrite !app_assoc. apply Permutation_app_tail, Permutation_app_comm.
  - eapply perm_trans; eassumption.
Qed.

Lemma concat_sizes (l : list Batch) :
  list_sum (map size l) = length (concat l).
Proof.
  induction l as [|b l IH]; simpl; [reflexivity|].
  rewrite length_app, IH. reflexivity.
Qed.

(** ** One run of the worker *)

Section FetchFacts.
Variable DataSet : Type.
Variable RNGState : Type.
Variable ds_stream : DataSet -> list Sample.
Variable std_shuffle : RNGState -> list Batch -> list Batch * RNGState.
Variable cmpNone : Sample -> Sample -> bool.

(** [std::shuffle] reorders the range it is given. *)
Hypothesis std_shuffle_perm :
  forall eng l, Permutation (fst (std_shuffle eng l)) l.

Let BG := BatchGenerator DataSet RNGState.

Lemma fetchBatches_cut (fuel : nat) (g : BG) :
  fetchBatches ds_stream std_shuffle cmpNone fuel g =
  match cut_window ds_stream cmpNone fuel g with
  | None => None
  | Some temp =>
      Some (if shuffle_ g then fst (std_shuffle (eng_ g) temp) else temp,
            {| data_ := data_ g; options_ := options_ g;
               restored_ := restored_ g; shuffle_ := shuffle_ g;
               stats_ := stats_ g; bufferedBatches_ := bufferedBatches_ g;
               current_ := window_end ds_stream g; newlyPrepared_ := false;
               futureBufferedBatches_ := futureBufferedBatches_ g;
               eng_ := if shuffle_ g then snd (std_shuffle (eng_ g) temp)
                       else eng_ g |})
  end.
Proof.
  unfold fetchBatches, cut_window, window_end.
  destruct (fill_window ds_stream g) as [[cur q] sets]. simpl.
  destruct (cut_loop _ _ _ _ _ _) as [st|]; [|reflexivity].
  destruct (shuffle_ g); [|reflexivity].
  destruct (std_shuffle (eng_ g) (turn_rest_into_batch st)); reflexivity.
Qed.

Lemma cut_window_perm (fuel : nat) (g : BG) (temp : list Batch) :
  cut_window ds_stream cmpNone fuel g = Some temp -> Permutation (concat temp) (window ds_stream g).
Proof.
  unfold cut_window, window.
  destruct (fill_window ds_stream g) as [[cur q] sets]. simpl.
  destruct (cut_loop _ _ _ _ _ _) as [st|] eqn:E; [|discriminate].
  intros H; inversion H; subst; clear H.
  apply cut_loop_contents in E. destruct E as [Hq Hp].
  unfold contents in Hp. rewrite Hq in Hp. simpl in Hp.
  rewrite app_nil_r in Hp.
  eapply perm_trans; [|exact Hp].
  unfold turn_rest_into_batch, toBatch.
  destruct (batchVector st) as [|s bv]; simpl.
  - apply Permutation_refl.
  - rewrite concat_app. simpl. rewrite app_nil_r.
    apply (Permutation_app_comm (concat (tempBatches st)) (s :: bv)).
Qed.

Lemma cut_window_total (fuel : nat) (g : BG) :
  oracle_positive (options_ g) (stats_ g) ->
  2 * length (window ds_stream g) <= fuel ->
  exists temp, cut_window ds_stream cmpNone fuel g = Some temp.
Proof.
  unfold cut_window, window. intros Hpos Hfuel.
  destruct (fill_window ds_stream g) as [[cur q] sets]. simpl in *.
  edestruct (@cut_loop_total (select_cmp cmpNone (options_ g)) _ _ sets Hpos fuel)
    as [st Hst]; [|rewrite Hst; eexists; reflexivity].
  unfold cut_measure. simpl. lia.
Qed.

Lemma fetchBatches_perm (fuel : nat) (g g' : BG) (swath : list Batch) :
  fetchBatches ds_stream std_shuffle cmpNone fuel g = Some (swath, g') ->
  Permutation (concat swath) (window ds_stream g).
Proof.
  rewrite fetchBatches_cut.
  destruct (cut_window ds_stream cmpNone fuel g) as [temp|] eqn:E; [|discriminate].
  intros H; inversion H; subst; clear H.
  apply cut_window_perm in E.
  destruct (shuffle_ g); [|exact E].
  eapply perm_trans; [|exact E].
  apply Permutation_concat, std_shuffle_perm.
Qed.

(** The window is a prefix of what the iterator has left. *)
Lemma window_prefix (g : BG) :
  window ds_stream g = firstn (length (window ds_stream g)) (start_of ds_stream g).
Proof.
  unfold window, fill_window.
  destruct (read_loop _ _ _ _) as [[cur q] sets] eqn:E.
  apply read_loop_spec in E. destruct E as (k & Hq & Hk & _). simpl in *.
  subst q. rewrite length_firstn, Nat.min_l by assumption. reflexivity.
Qed.
End FetchFacts.

(** ** The consumer side: [next], [prepare], [drain] *)

Lemma tl_skipn (A : Type) (n : nat) (l : list A) :
  tl (skipn n l) = skipn (S n) l.
Proof.
  revert l. induction n as [|n IH]; intros [|x l]; simpl; try reflexivity.
  - apply IH.
Qed.

Section ConsumerFacts.
Variable DataSet : Type.
Variable RNGState : Type.
Variable ds_stream : DataSet -> list Sample.
Variable ds_shuffle : DataSet -> DataSet.
Variable ds_reset : DataSet -> DataSet.
Variable ds_restore : TrainingState RNGState -> DataSet -> DataSet.
Variable std_shuffle : RNGState -> list Batch -> list Batch * RNGState.
Variable cmpNone : Sample -> Sample -> bool.

Let BG := BatchGenerator DataSet RNGState.

Local Abbreviation fetchBatches' := (fetchBatches ds_stream std_shuffle cmpNone).
Local Abbreviation next' := (next ds_stream std_shuffle cmpNone).
Local Abbreviation drain' := (drain ds_stream std_shuffle cmpNone).
Local Abbreviation prepare' := (prepare ds_shuffle ds_reset).
Local Abbreviation start_of' := (start_of ds_stream).
Local Abbreviation window' := (window ds_stream).
Local Abbreviation window_end' := (window_end ds_stream).

Lemma next_join (fuel : nat) (g g1 : BG) (swath : list Batch) :
  bufferedBatches_ g = [] ->
  futureBufferedBatches_ g = true ->
  fetchBatches' fuel g = Some (swath, g1) ->
  next' fuel g = Ret (hd_error swath, joined ds_stream g swath (eng_ g1)).
Proof.
  intros Hb Hf Hfetch. unfold next. rewrite Hb, Hf, Hfetch. simpl.
  rewrite fetchBatches_cut in Hfetch.
  destruct (cut_window ds_stream cmpNone fuel g); [|discriminate].
  inversion Hfetch; subst; clear Hfetch.
  unfold joined.
  destruct (if shuffle_ g then fst (std_shuffle (eng_ g) l) else l);
    reflexivity.
Qed.

Lemma next_buffered (fuel : nat) (g : BG) (b : Batch) (rest : list Batch) :
  bufferedBatches_ g = b :: rest ->
  next' fuel g = Ret (Some b, set_buffered rest g).
Proof. intros Hb. unfold next, pop_front. rewrite Hb. reflexivity. Qed.

Lemma set_buffered_same (g : BG) : set_buffered (bufferedBatches_ g) g = g.
Proof. now destruct g. Qed.

(** Draining what is buffered, then the rest. *)
Lemma drain_buffered (fuel n : nat) (bs : list Batch) (g' : BG) :
  forall (B : list Batch) (g : BG),
    bufferedBatches_ g = B ->
    drain' fuel n (set_buffered [] g) = Ret (bs, g') ->
    drain' fuel (length B + n) g = Ret (B ++ bs, g').
Proof.
  induction B as [|b B IH]; intros g Hb H.
  - rewrite <- Hb, set_buffered_same in H. exact H.
  - simpl. rewrite (next_buffered fuel g Hb). simpl.
    rewrite (IH (set_buffered B g)); [reflexivity|reflexivity|exact H].
Qed.

Lemma window_empty_stream (g : BG) :
  0 < maxSize_of (options_ g) -> window' g = [] -> start_of' g = [].
Proof.
  unfold window, fill_window. intros Hmax Hw.
  destruct (read_loop _ _ _ _) as [[cur q] sets] eqn:E.
  apply read_loop_spec in E. destruct E as (k & Hq & Hk & _ & Hcases).
  simpl in *. subst q.
  destruct Hcases as [[_ ->]|[(Hk0 & _)|(_ & Hge & _)]].
  - rewrite firstn_all in Hw. exact Hw.
  - destruct k; [lia|]. destruct (start_of' g); [reflexivity|discriminate].
  - lia.
Qed.

(** Where the next run of the worker starts. *)
Lemma window_end_tl (g : BG) :
  0 < maxSize_of (options_ g) ->
  tl (window_end' g) = skipn (length (window' g)) (start_of' g).
Proof.
  unfold window, window_end, fill_window. intros Hmax.
  destruct (read_loop _ _ _ _) as [[cur q] sets] eqn:E.
  apply read_loop_spec in E. destruct E as (k & Hq & Hk & _ & Hcases).
  simpl in *. subst q.
  rewrite length_firstn, Nat.min_l by assumption.
  destruct Hcases as [[-> ->]|[(Hk0 & _ & ->)|(_ & Hge & _)]].
  - now rewrite skipn_all.
  - rewrite tl_skipn. f_equal. lia.
  - lia.
Qed.

Lemma start_of_joined (g : BG) (swath : list Batch) (eng : RNGState) :
  0 < maxSize_of (options_ g) ->
  start_of' (set_buffered [] (joined ds_stream g swath eng))
  = skipn (length (window' g)) (start_of' g).
Proof.
  intros Hmax. rewrite <- window_end_tl by assumption.
  unfold start_of. simpl. now destruct (window_end' g).
Qed.
End ConsumerFacts.

(** ** A whole epoch *)

Section EpochFacts.
Variable DataSet : Type.
Variable RNGState : Type.
Variable ds_stream : DataSet -> list Sample.
Variable ds_shuffle : DataSet -> DataSet.
Variable ds_reset : DataSet -> DataSet.
Variable std_shuffle : RNGState -> list Batch -> list Batch * RNGState.
Variable cmpNone : Sample -> Sample -> bool.

Hypothesis std_shuffle_perm :
  forall eng l, Permutation (fst (std_shuffle eng l)) l.

Let BG := BatchGenerator DataSet RNGState.

Local Abbreviation fetchBatches' := (fetchBatches ds_stream std_shuffle cmpNone).
Local Abbreviation next' := (next ds_stream std_shuffle cmpNone).
Local Abbreviation drain' := (drain ds_stream std_shuffle cmpNone).
Local Abbreviation start_of' := (start_of ds_stream).
Local Abbreviation window' := (window ds_stream).
Local Abbreviation prepare' := (prepare ds_shuffle ds_reset).
Local Abbreviation prepared' := (prepared ds_shuffle ds_reset).
Local Abbreviation epoch_data' := (epoch_data ds_shuffle ds_reset).

Lemma fetchBatches_total (fuel : nat) (g : BG) :
  oracle_positive (options_ g) (stats_ g) ->
  2 * length (window' g) <= fuel ->
  exists swath g1, fetchBatches' fuel g = Some (swath, g1).
Proof.
  intros Hpos Hfuel. rewrite fetchBatches_cut.
  destruct (cut_window_total ds_stream cmpNone g Hpos Hfuel) as [temp ->].
  eexists; eexists; reflexivity.
Qed.

Lemma fetchBatches_empty_window (fuel : nat) (g g1 : BG) (swath : list Batch) :
  window' g = [] ->
  fetchBatches' fuel g = Some (swath, g1) ->
  swath = [].
Proof.
  intros Hw. rewrite fetchBatches_cut. unfold cut_window, window in *.
  destruct (fill_window ds_stream g) as [[cur q] sets]. simpl in Hw. subst q.
  assert (Hloop : forall st, maxiBatch st = [] ->
            cut_loop (select_cmp cmpNone (options_ g)) (options_ g) (stats_ g)
                     sets fuel st = Some st).
  { intros st Hq. destruct fuel; simpl; rewrite Hq; reflexivity. }
  rewrite Hloop by reflexivity. unfold turn_rest_into_batch. simpl.
  intros H; inversion H; subst; clear H.
  destruct (shuffle_ g); [|reflexivity].
  apply Permutation_nil, Permutation_sym, std_shuffle_perm.
Qed.

Lemma window_length_le (g : BG) : length (window' g) <= length (start_of' g).
Proof.
  rewrite (window_prefix ds_stream g) at 1. rewrite length_firstn. lia.
Qed.

Lemma drain_epoch (fuel : nat) :
  forall (k : nat) (g : BG),
    length (start_of' g) <= k ->
    2 * length (start_of' g) <= fuel ->
    bufferedBatches_ g = [] ->
    futureBufferedBatches_ g = true ->
    oracle_positive (options_ g) (stats_ g) ->
    0 < maxSize_of (options_ g) ->
    exists n bs g',
      drain' fuel n g = Ret (bs, g') /\
      Permutation (concat bs) (start_of' g) /\
      futureBufferedBatches_ g' = false /\ bufferedBatches_ g' = [].
Proof.
  induction k as [|k IH]; intros g Hk Hfuel Hb Hf Hpos Hmax;
    pose proof (window_length_le g) as Hwl;
    (destruct (@fetchBatches_total fuel g Hpos) as (swath & g1 & Hfetch);
     [lia|]);
    pose proof (next_join _ _ _ _ g Hb Hf Hfetch) as Hnext;
    pose proof (fetchBatches_perm _ _ _ std_shuffle_perm _ _ Hfetch) as Hperm.
  - (* nothing left in the stream *)
    assert (Hw : window' g = []) by (destruct (window' g); simpl in *; [reflexivity|lia]).
    rewrite (@fetchBatches_empty_window _ _ _ _ Hw Hfetch) in Hnext.
    exists 1, [], (joined ds_stream g [] (eng_ g1)). simpl. rewrite Hnext. simpl.
    repeat split; auto.
    destruct (start_of' g); simpl in *; [apply Permutation_refl|lia].
  - destruct swath as [|b rest].
    + (* the worker delivered nothing: the epoch is over *)
      exists 1, [], (joined ds_stream g [] (eng_ g1)). simpl. rewrite Hnext. simpl.
      repeat split; auto.
      simpl in Hperm. apply Permutation_nil in Hperm.
      rewrite (window_empty_stream ds_stream g Hmax Hperm).
      apply Permutation_refl.
    + (* a window of batches: hand them out, then go on with the next one *)
      assert (Hw : window' g <> []).
      { intros Hw. pose proof (@fetchBatches_empty_window _ _ _ _ Hw Hfetch); discriminate. }
      set (g4 := joined ds_stream g (b :: rest) (eng_ g1)) in *.
      pose proof (start_of_joined ds_stream g (b :: rest) (eng_ g1) Hmax) as Hstart.
      fold g4 in Hstart.
      assert (Hshort : length (start_of' (set_buffered [] g4)) < length (start_of' g)).
      { rewrite Hstart, length_skipn.
        destruct (window' g); [congruence|]. simpl in *. lia. }
      destruct (IH (set_buffered [] g4)) as (n & bs & g' & Hdrain & Hp & Hf' & Hb');
        try assumption; try reflexivity; try lia.
      exists (S (length rest + n)), (b :: rest ++ bs), g'.
      split; [|split; [|split; assumption]].
      * assert (Hd : drain' fuel (length rest + n) g4 = Ret (rest ++ bs, g'))
          by (apply drain_buffered; [reflexivity|exact Hdrain]).
        cbn [drain]. rewrite Hnext. cbn [bind fst snd hd_error].
        rewrite Hd. reflexivity.
      * simpl. rewrite concat_app, app_assoc.
        rewrite <- (firstn_skipn (length (window' g)) (start_of' g)).
        rewrite <- window_prefix, <- Hstart.
        apply Permutation_app; [exact Hperm|exact Hp].
Qed.

Lemma prepare_fresh (shuffle : bool) (g : BG) :
  futureBufferedBatches_ g = false ->
  restored_ g = false ->
  prepare' shuffle g = Ret (prepared' shuffle g).
Proof.
  intros Hf Hr. unfold prepare, fetchBatchesAsync, prepared, epoch_data.
  rewrite Hr. simpl. rewrite Hf. reflexivity.
Qed.

Lemma next_null_idle (fuel : nat) (g g' : BG) :
  next' fuel g = Ret (None, g') ->
  futureBufferedBatches_ g' = false /\ bufferedBatches_ g' = [].
Proof.
  unfold next, pop_front, fetchBatchesAsync.
  destruct (bufferedBatches_ g) as [|b rest]; [|discriminate].
  destruct (futureBufferedBatches_ g); simpl; [|discriminate].
  destruct (fetchBatches' fuel g) as [[swath g1]|]; [|discriminate].
  destruct swath as [|b rest]; simpl.
  - intros H; inversion H; subst. simpl. auto.
  - discriminate.
Qed.

Lemma next_idle_aborts (fuel : nat) (g : BG) :
  futureBufferedBatches_ g = false ->
  bufferedBatches_ g = [] ->
  next' fuel g = Abort msg_wait.
Proof. intros Hf Hb. unfold next. rewrite Hb, Hf. reflexivity. Qed.

(** C5 (conservation).  Whatever a run of the worker returns, its batches
    hold exactly the samples the reading loop took from the dataset
    iterator ([numSentencesRead] of them, a prefix of what the iterator had
    left), each once, the trailing partial batch included; the run does
    return when the oracle never answers 0; and over an epoch with a window
    capacity above 0 the batches handed out by [next] until it returns null
    hold exactly the samples of the dataset, each once. *)
Theorem conservation :
  (forall (fuel : nat) (g g' : BG) (swath : list Batch),
      fetchBatches' fuel g = Some (swath, g') ->
      list_sum (map size swath) = length (window' g) /\
      Permutation (concat swath) (window' g) /\
      window' g = firstn (length (window' g)) (start_of' g)) /\
  (forall (fuel : nat) (g : BG),
      oracle_positive (options_ g) (stats_ g) ->
      2 * length (window' g) <= fuel ->
      exists swath g', fetchBatches' fuel g = Some (swath, g')) /\
  (forall (fuel : nat) (shuffle : bool) (g : BG),
      futureBufferedBatches_ g = false ->
      restored_ g = false ->
      bufferedBatches_ g = [] ->
      oracle_positive (options_ g) (stats_ g) ->
      0 < maxSize_of (options_ g) ->
      2 * length (ds_stream (epoch_data' shuffle g)) <= fuel ->
      exists g1 n bs g2,
        prepare' shuffle g = Ret g1 /\
        drain' fuel n g1 = Ret (bs, g2) /\
        list_sum (map size bs) = length (ds_stream (data_ g1)) /\
        Permutation (concat bs) (ds_stream (data_ g1))).
Proof.
  split; [|split].
  - intros fuel g g' swath Hfetch.
    pose proof (fetchBatches_perm _ _ _ std_shuffle_perm _ _ Hfetch) as Hperm.
    split; [|split].
    + rewrite concat_sizes. now apply Permutation_length.
    + exact Hperm.
    + apply window_prefix.
  - intros fuel g. apply fetchBatches_total.
  - intros fuel shuffle g Hf Hr Hb Hpos Hmax Hfuel.
    destruct (@drain_epoch fuel (length (ds_stream (epoch_data' shuffle g)))
                (prepared' shuffle g))
      as (n & bs & g2 & Hdrain & Hperm & _); try assumption; try reflexivity.
    exists (prepared' shuffle g), n, bs, g2.
    split; [now apply prepare_fresh|]. split; [exact Hdrain|].
    split; [|exact Hperm].
    rewrite concat_sizes. now apply Permutation_length.
Qed.

(** C1 (end of the epoch, as the code has it).  Whenever [next] returns
    null it leaves the prefetch slot idle and the buffer empty, so a second
    [next] right after it aborts on the "none pending" check instead of
    returning null; and in an epoch started by [prepare] the batches are
    followed by exactly such a null. *)
Theorem end_of_epoch_then_abort :
  (forall (fuel : nat) (g g' : BG),
      next' fuel g = Ret (None, g') ->
      futureBufferedBatches_ g' = false /\
      bufferedBatches_ g' = [] /\
      forall fuel', next' fuel' g' = Abort msg_wait) /\
  (forall (fuel : nat) (shuffle : bool) (g : BG),
      futureBufferedBatches_ g = false ->
      restored_ g = false ->
      bufferedBatches_ g = [] ->
      oracle_positive (options_ g) (stats_ g) ->
      0 < maxSize_of (options_ g) ->
      2 * length (ds_stream (epoch_data' shuffle g)) <= fuel ->
      exists g1 n bs g2,
        prepare' shuffle g = Ret g1 /\
        drain' fuel n g1 = Ret (bs, g2) /\
        forall fuel', next' fuel' g2 = Abort msg_wait).
Proof.
  split.
  - intros fuel g g' Hnull. apply next_null_idle in Hnull.
    destruct Hnull as [Hf Hb]. repeat split; try assumption.
    intros fuel'. now apply next_idle_aborts.
  - intros fuel shuffle g Hf Hr Hb Hpos Hmax Hfuel.
    destruct (@drain_epoch fuel (length (ds_stream (epoch_data' shuffle g)))
                (prepared' shuffle g))
      as (n & bs & g2 & Hdrain & _ & Hf2 & Hb2); try assumption; try reflexivity.
    exists (prepared' shuffle g), n, bs, g2.
    split; [now apply prepare_fresh|]. split; [exact Hdrain|].
    intros fuel'. now apply next_idle_aborts.
Qed.

Lemma fetchBatches_nothing_read (fuel : nat) (g : BG) :
  window' g = [] -> exists g1, fetchBatches' fuel g = Some ([], g1).
Proof.
  intros Hw.
  assert (Hcut : cut_window ds_stream cmpNone fuel g = Some []).
  { unfold cut_window, window in *.
    destruct (fill_window ds_stream g) as [[cur q] sets]. simpl in Hw. subst q.
    destruct fuel; reflexivity. }
  destruct (fetchBatches' fuel g) as [[swath g1]|] eqn:Hfetch.
  - rewrite (@fetchBatches_empty_window _ _ _ _ Hw Hfetch). eexists; reflexivity.
  - rewrite fetchBatches_cut, Hcut in Hfetch. discriminate.
Qed.

(** C10 (empty dataset).  When the dataset of the epoch has no sample, the
    worker that runs after [prepare] reads nothing and returns an empty
    deque, and the first [next] returns null: no abort, and no further
    prefetch is scheduled. *)
Theorem empty_dataset_first_next_null (fuel : nat) (shuffle : bool) (g : BG) :
  futureBufferedBatches_ g = false ->
  restored_ g = false ->
  bufferedBatches_ g = [] ->
  ds_stream (epoch_data' shuffle g) = [] ->
  exists g1 gw g2,
    prepare' shuffle g = Ret g1 /\
    window' g1 = [] /\
    fetchBatches' fuel g1 = Some ([], gw) /\
    next' fuel g1 = Ret (None, g2) /\
    futureBufferedBatches_ g2 = false /\
    bufferedBatches_ g2 = [].
Proof.
  intros Hf Hr Hb Hempty.
  set (g1 := prepared' shuffle g).
  assert (Hw : window' g1 = []).
  { pose proof (window_length_le g1) as Hle.
    unfold start_of in Hle. simpl in Hle. rewrite Hempty in Hle.
    destruct (window' g1); simpl in *; [reflexivity|lia]. }
  destruct (fetchBatches_nothing_read fuel g1 Hw) as [gw Hfetch].
  assert (Hnext : next' fuel g1 = Ret (None, joined ds_stream g1 [] (eng_ gw))).
  { exact (next_join _ _ _ _ g1 Hb eq_refl Hfetch). }
  exists g1, gw, (joined ds_stream g1 [] (eng_ gw)).
  split; [now apply prepare_fresh|].
  repeat split; assumption.
Qed.
End EpochFacts.

(** ** The word-budget policy *)

Lemma words0_snoc (bv : Samples) (s : Sample) :
  words0 (bv ++ [s]) = words0 bv + length (nth 0 s []).
Proof.
  unfold words0. rewrite map_app, list_sum_app. simpl. lia.
Qed.

Section WordBudgetFacts.
Variable cmp : Sample -> Sample -> bool.
Variable o : Options.
Variable stats : option BatchStats.
Variable sets : nat.
Hypothesis Hactive : word_budget_active o stats.

Lemma cut_body_word_budget (s : Sample) (st : CutState) :
  cut_body cmp o stats sets s st =
  emit_if sets (mini_batch_words o <? currentWords st + length (nth 0 s []))
          (pq_pop cmp (maxiBatch st)) (batchVector st ++ [s])
          (currentWords st + length (nth 0 s [])) (lengths st)
          (maxBatchSize st) (tempBatches st).
Proof.
  destruct Hactive as [Hpos Hnodyn].
  unfold cut_body, useDynamicBatching, mbWords.
  rewrite last_snoc.
  assert (Hlt : (0 <? mini_batch_words o) = true) by now apply Nat.ltb_lt.
  destruct Hnodyn as [-> | ->]; [|destruct (mini_batch_fit o)];
    rewrite Hlt; reflexivity.
Qed.

Lemma cut_step_budget_inv (st : CutState) :
  budget_inv o st -> budget_inv o (cut_step cmp o stats sets st).
Proof.
  intros (Hw & Hle & Hall). unfold cut_step.
  destruct (pq_top cmp (maxiBatch st)) as [s|]; [|now repeat split].
  rewrite cut_body_word_budget. unfold emit_if, budget_inv, toBatch.
  destruct (mini_batch_words o <? currentWords st + length (nth 0 s [])) eqn:E;
    simpl.
  - apply Nat.ltb_lt in E. repeat split; try lia.
    apply Forall_app. split; [exact Hall|].
    constructor; [|constructor].
    unfold over_budget. rewrite removelast_snoc, words0_snoc. lia.
  - apply Nat.ltb_ge in E. rewrite words0_snoc. repeat split; try lia.
    exact Hall.
Qed.

Lemma cut_loop_budget_inv (fuel : nat) :
  forall st st', cut_loop cmp o stats sets fuel st = Some st' ->
                 budget_inv o st -> budget_inv o st'.
Proof.
  induction fuel as [|fuel IH]; intros st st' H Hinv; simpl in H;
    destruct (pq_empty (maxiBatch st)); try discriminate;
    try (inversion H; subst; exact Hinv).
  apply (IH _ _ H). now apply cut_step_budget_inv.
Qed.

Lemma word_budget_oracle_positive : oracle_positive o stats.
Proof.
  destruct Hactive as [_ [H | H]]; unfold oracle_positive; rewrite H; auto.
  now destruct (mini_batch_fit o).
Qed.
End WordBudgetFacts.

Section WordBudget.
Variable DataSet : Type.
Variable RNGState : Type.
Variable ds_stream : DataSet -> list Sample.
Variable std_shuffle : RNGState -> list Batch -> list Batch * RNGState.
Variable cmpNone : Sample -> Sample -> bool.

Hypothesis std_shuffle_perm :
  forall eng l, Permutation (fst (std_shuffle eng l)) l.

Let BG := BatchGenerator DataSet RNGState.

Lemma cut_window_word_budget (fuel : nat) (g : BG) (temp : list Batch) :
  word_budget_active (options_ g) (stats_ g) ->
  cut_window ds_stream cmpNone fuel g = Some temp ->
  exists full trailing,
    temp = full ++ trailing /\
    Forall (over_budget (mini_batch_words (options_ g))) full /\
    (trailing = [] \/
     exists b, trailing = [b] /\ b <> [] /\
               words0 b <= mini_batch_words (options_ g)).
Proof.
  intros Hactive. unfold cut_window.
  destruct (fill_window ds_stream g) as [[cur q] sets].
  destruct (cut_loop _ _ _ _ _ _) as [st|] eqn:E; [|discriminate].
  intros H; inversion H; subst; clear H.
  assert (Hinv : budget_inv (options_ g) st).
  { eapply cut_loop_budget_inv; [exact Hactive|exact E|].
    repeat split; simpl; [lia|constructor]. }
  destruct Hinv as (Hw & Hle & Hall).
  exists (tempBatches st).
  unfold turn_rest_into_batch, toBatch.
  destruct (batchVector st) as [|s bv] eqn:Hbv.
  - exists []. rewrite app_nil_r. auto.
  - exists [s :: bv]. repeat split; auto.
    right. exists (s :: bv). repeat split; [discriminate|lia].
Qed.

(** C3 (word budget).  With the word-budget branch in force, an iteration
    adds the field-0 size of the sample it pushes to the running count and
    emits exactly when the count is above the budget, with that sample in
    the batch and the count back at 0; the worker returns, its batches hold
    exactly the samples of the window, each once, and of these batches all
    but possibly the trailing one are above the budget and not above it
    without their last sample, the trailing one being within the budget. *)
Theorem word_budget_batches :
  (forall (cmp : Sample -> Sample -> bool) (o : Options)
          (stats : option BatchStats) (sets : nat) (st : CutState) (s : Sample),
      word_budget_active o stats ->
      pq_top cmp (maxiBatch st) = Some s ->
      let total := currentWords st + length (nth 0 s []) in
      let st' := cut_step cmp o stats sets st in
      (mini_batch_words o < total ->
       tempBatches st' = tempBatches st ++ [toBatch (batchVector st ++ [s])] /\
       batchVector st' = [] /\ currentWords st' = 0) /\
      (total <= mini_batch_words o ->
       tempBatches st' = tempBatches st /\
       batchVector st' = batchVector st ++ [s] /\ currentWords st' = total)) /\
  (forall (fuel : nat) (g : BG),
      word_budget_active (options_ g) (stats_ g) ->
      2 * length (window ds_stream g) <= fuel ->
      exists swath g' full trailing,
        fetchBatches ds_stream std_shuffle cmpNone fuel g = Some (swath, g') /\
        Permutation (concat swath) (window ds_stream g) /\
        Permutation swath (full ++ trailing) /\
        (shuffle_ g = false -> swath = full ++ trailing) /\
        Forall (over_budget (mini_batch_words (options_ g))) full /\
        (trailing = [] \/
         exists b, trailing = [b] /\ b <> [] /\
                   words0 b <= mini_batch_words (options_ g))).
Proof.
  split.
  - intros cmp o stats sets st s Hactive Htop total st'.
    subst st'. unfold cut_step. rewrite Htop.
    rewrite cut_body_word_budget by exact Hactive. fold total.
    unfold emit_if. split; intros Hcmp.
    + apply Nat.ltb_lt in Hcmp. rewrite Hcmp. simpl. auto.
    + apply Nat.ltb_ge in Hcmp. rewrite Hcmp. simpl. auto.
  - intros fuel g Hactive Hfuel.
    destruct (cut_window_total ds_stream cmpNone g
                (word_budget_oracle_positive Hactive) Hfuel) as [temp Hcut].
    destruct (@cut_window_word_budget fuel g temp Hactive Hcut)
      as (full & trailing & Htemp & Hfull & Htrail).
    destruct (fetchBatches ds_stream std_shuffle cmpNone fuel g)
      as [[swath g']|] eqn:Hfetch;
      [|rewrite fetchBatches_cut, Hcut in Hfetch; discriminate].
    pose proof (fetchBatches_perm _ _ _ std_shuffle_perm _ _ Hfetch) as Hwin.
    rewrite fetchBatches_cut, Hcut in Hfetch.
    injection Hfetch as Hswath _.
    exists swath, g', full, trailing.
    split; [reflexivity|]. split; [exact Hwin|].
    split; [|split; [|split; assumption]].
    + rewrite <- Hswath.
      destruct (shuffle_ g); [|rewrite Htemp; apply Permutation_refl].
      rewrite <- Htemp. apply std_shuffle_perm.
    + intros Hsh. rewrite <- Hswath, Hsh. exact Htemp.
Qed.
End WordBudget.

(** ** The push-back of dynamic batching *)

Section PushBack.
Variable cmp : Sample -> Sample -> bool.
Variable o : Options.
Variable stats : option BatchStats.
Variable sets : nat.

Lemma emit_if_temp mk q bv w l m temp :
  tempBatches (emit_if sets mk q bv w l m temp)
  = temp ++ (if mk then [toBatch bv] else []).
Proof. unfold emit_if. destruct mk; simpl; [reflexivity|now rewrite app_nil_r]. Qed.



End PushBack.


(** ** The prefetch slot and [restore] *)

Section Protocol.
Variable DataSet : Type.
Variable RNGState : Type.
Variable ds_stream : DataSet -> list Sample.
Variable ds_shuffle : DataSet -> DataSet.
Variable ds_reset : DataSet -> DataSet.
Variable ds_restore : TrainingState RNGState -> DataSet -> DataSet.
Variable std_shuffle : RNGState -> list Batch -> list Batch * RNGState.
Variable cmpNone : Sample -> Sample -> bool.

Let BG := BatchGenerator DataSet RNGState.

Local Abbreviation next' := (next ds_stream std_shuffle cmpNone).
Local Abbreviation prepare' := (prepare ds_shuffle ds_reset).
Local Abbreviation fast_forward' := (fast_forward ds_stream std_shuffle cmpNone).
Local Abbreviation restore' :=
  (restore ds_stream ds_shuffle ds_reset ds_restore std_shuffle cmpNone).
Local Abbreviation reachable' :=
  (reachable ds_stream ds_shuffle ds_reset ds_restore std_shuffle cmpNone).
Local Abbreviation next_times' := (next_times ds_stream std_shuffle cmpNone).

Lemma next_slot (fuel : nat) (g g' : BG) (r : BatchPtr) :
  slot_covers_buffer g ->
  next' fuel g = Ret (r, g') ->
  slot_covers_buffer g' /\ (r <> None -> futureBufferedBatches_ g' = true).
Proof.
  unfold slot_covers_buffer, next, pop_front, fetchBatchesAsync.
  intros Hinv.
  destruct (bufferedBatches_ g) as [|b rest] eqn:Hb.
  - destruct (futureBufferedBatches_ g); simpl; [|discriminate].
    destruct (fetchBatches _ _ _ fuel g) as [[swath g1]|]; [|discriminate].
    destruct swath as [|b rest]; simpl; intros H; inversion H; subst; simpl.
    + split; [intros Hne; now elim Hne|intros Hne; now elim Hne].
    + split; reflexivity.
  - intros H; inversion H; subst; simpl.
    assert (Hf : futureBufferedBatches_ g = true) by (apply Hinv; discriminate).
    split; intros _; exact Hf.
Qed.

Lemma prepare_slot (shuffle : bool) (g g' : BG) :
  slot_covers_buffer g -> prepare' shuffle g = Ret g' -> slot_covers_buffer g'.
Proof.
  unfold slot_covers_buffer, prepare, fetchBatchesAsync. intros Hinv.
  destruct (restored_ g); simpl.
  - intros H; inversion H; subst; simpl. exact Hinv.
  - destruct (futureBufferedBatches_ g); [discriminate|].
    intros H; inversion H; subst; simpl. reflexivity.
Qed.

Lemma fast_forward_slot (fuel n : nat) :
  forall g g', slot_covers_buffer g -> fast_forward' fuel n g = Ret g' ->
               slot_covers_buffer g'.
Proof.
  induction n as [|n IH]; intros g g' Hinv H; simpl in H.
  - inversion H; subst. exact Hinv.
  - destruct (next' fuel g) as [[r g1]| |] eqn:Hn; simpl in H; try discriminate.
    apply (IH g1); [|exact H].
    now destruct (next_slot _ Hinv Hn).
Qed.

Lemma restore_slot (fuel : nat) (state : TrainingState RNGState)
      (shuffle b : bool) (g g' : BG) :
  slot_covers_buffer g -> restore' fuel state shuffle g = Ret (b, g') ->
  slot_covers_buffer g'.
Proof.
  unfold restore. intros Hinv.
  destruct ((epochs state =? 1) && (batchesEpoch state =? 0));
    [intros H; inversion H; subst; exact Hinv|].
  destruct (no_restore_corpus (options_ g));
    [intros H; inversion H; subst; exact Hinv|].
  set (g1 := if 1 <? epochs state then restore_seed ds_restore state g else g).
  assert (Hinv1 : slot_covers_buffer g1)
    by (subst g1; destruct (1 <? epochs state); exact Hinv).
  destruct (prepare' shuffle g1) as [g2| |] eqn:Hp; simpl; try discriminate.
  destruct (fast_forward' fuel (batchesEpoch state) g2) as [g3| |] eqn:Hff;
    simpl; try discriminate.
  intros H; inversion H; subst.
  apply (prepare_slot _ Hinv1) in Hp.
  apply (fast_forward_slot _ _ Hp) in Hff. exact Hff.
Qed.

Lemma reachable_slot (g : BG) : reachable' g -> slot_covers_buffer g.
Proof.
  induction 1 as [| g state _ IH | g shuffle g' _ IH Hp | g fuel r g' _ IH Hn
                  | g fuel state shuffle b g' _ IH Hr].
  - intros Hne. now elim Hne.
  - exact IH.
  - exact (prepare_slot _ IH Hp).
  - now destruct (next_slot _ IH Hn).
  - exact (restore_slot _ _ _ IH Hr).
Qed.

(** C6 (prefetch overlap).  In every state the interface can reach,
    whenever [next] returns a batch the prefetch slot holds a scheduled
    window when it returns. *)
Theorem prefetch_overlap (fuel : nat) (g g' : BG) (batch : Batch) :
  reachable' g ->
  next' fuel g = Ret (Some batch, g') ->
  futureBufferedBatches_ g' = true.
Proof.
  intros Hreach Hnext.
  destruct (next_slot _ (reachable_slot Hreach) Hnext) as [_ Hf].
  apply Hf. discriminate.
Qed.

Lemma fast_forward_next_times (fuel n : nat) :
  forall g g', fast_forward' fuel n g = Ret g' <-> next_times' fuel n g g'.
Proof.
  induction n as [|n IH]; intros g g'; simpl; split; intros H.
  - inversion H; subst. constructor.
  - inversion H; subst. reflexivity.
  - destruct (next' fuel g) as [[r g1]| |] eqn:Hn; simpl in H; try discriminate.
    econstructor; [exact Hn|]. now apply IH.
  - inversion H as [|n' g0 r g1 g2 Hn Hrest]; subst.
    rewrite Hn. simpl. now apply IH.
Qed.

Lemma prepare_restored (shuffle : bool) (g : BG) :
  restored_ g = true -> prepare' shuffle g = Ret (set_restored false g).
Proof. intros Hr. unfold prepare. now rewrite Hr. Qed.

(** C7 ([restore]).  It returns false, changing nothing, for epoch 1 with no
    batch consumed, and when no-restore-corpus is set.  Otherwise it
    returns true exactly when its [prepare] and its [batchesEpoch] calls of
    [next] go through: the dataset and the engine are restored (the engine
    from [seedBatch]) only for an epoch counter above 1, [prepare(shuffle)]
    is called, [next] is called [batchesEpoch] times, and the generator is
    left marked restored, so that the next [prepare] only clears the mark. *)
Theorem restore_behaviour (fuel : nat) (state : TrainingState RNGState)
        (shuffle : bool) (g : BG) :
  (epochs state = 1 -> batchesEpoch state = 0 ->
   restore' fuel state shuffle g = Ret (false, g)) /\
  (no_restore_corpus (options_ g) = true ->
   restore' fuel state shuffle g = Ret (false, g)) /\
  (~ (epochs state = 1 /\ batchesEpoch state = 0) ->
   no_restore_corpus (options_ g) = false ->
   forall (b : bool) (g' : BG),
     restore' fuel state shuffle g = Ret (b, g') <->
     b = true /\
     exists g1 g2 g3,
       (1 < epochs state ->
        g1 = restore_seed ds_restore state g /\
        data_ g1 = ds_restore state (data_ g) /\ eng_ g1 = seedBatch state) /\
       (epochs state <= 1 -> g1 = g) /\
       prepare' shuffle g1 = Ret g2 /\
       next_times' fuel (batchesEpoch state) g2 g3 /\
       g' = set_restored true g3 /\
       restored_ g' = true /\
       forall shuffle', prepare' shuffle' g' = Ret (set_restored false g')).
Proof.
  split; [|split].
  - intros He Hb. unfold restore. rewrite He, Hb. reflexivity.
  - intros Hno. unfold restore. rewrite Hno.
    now destruct ((epochs state =? 1) && (batchesEpoch state =? 0)).
  - intros Hnot Hno b g'. unfold restore. rewrite Hno.
    assert (Hfirst : (epochs state =? 1) && (batchesEpoch state =? 0) = false).
    { apply andb_false_iff.
      destruct (epochs state =? 1) eqn:E1; [|now left].
      destruct (batchesEpoch state =? 0) eqn:E2; [|now right].
      apply Nat.eqb_eq in E1, E2. now elim Hnot. }
    rewrite Hfirst.
    set (g1 := if 1 <? epochs state then restore_seed ds_restore state g else g).
    split.
    + destruct (prepare' shuffle g1) as [g2| |] eqn:Hp; simpl; try discriminate.
      destruct (fast_forward' fuel (batchesEpoch state) g2) as [g3| |] eqn:Hff;
        simpl; try discriminate.
      intros H; inversion H; subst b g'. split; [reflexivity|].
      exists g1, g2, g3.
      split; [|split; [|split; [|split; [|split; [|split]]]]].
      * intros Hlt. apply Nat.ltb_lt in Hlt. subst g1. rewrite Hlt. auto.
      * intros Hle. apply Nat.ltb_ge in Hle. subst g1. now rewrite Hle.
      * exact Hp.
      * now apply fast_forward_next_times.
      * reflexivity.
      * reflexivity.
      * intros shuffle'. now apply prepare_restored.
    + intros (-> & g1' & g2 & g3 & Hgt & Hle & Hp & Hnt & -> & _).
      assert (Heq : g1' = g1).
      { subst g1. destruct (1 <? epochs state) eqn:E.
        - apply Nat.ltb_lt in E. now destruct (Hgt E).
        - apply Nat.ltb_ge in E. now apply Hle. }
      subst g1'. rewrite Hp. simpl.
      apply fast_forward_next_times in Hnt. rewrite Hnt. reflexivity.
Qed.
End Protocol.

(** * Further properties *)

(** ** The cutting loop under the other policies *)

Section CutInvariants.
Variable cmp : Sample -> Sample -> bool.
Variable o : Options.
Variable stats : option BatchStats.
Variable sets : nat.

Lemma cut_loop_invariant (P : CutState -> Prop) :
  (forall st s, pq_top cmp (maxiBatch st) = Some s -> P st ->
                P (cut_body cmp o stats sets s st)) ->
  forall fuel st st',
    cut_loop cmp o stats sets fuel st = Some st' -> P st -> P st'.
Proof.
  intros Hstep. induction fuel as [|fuel IH]; intros st st' H HP; simpl in H;
    destruct (pq_empty (maxiBatch st)) eqn:E; try discriminate;
    try (inversion H; subst; exact HP).
  apply (IH _ _ H). unfold cut_step.
  destruct (pq_top_nonempty cmp _ E) as [s Hs]. rewrite Hs. now apply Hstep.
Qed.

Lemma turn_rest_split (st : CutState) :
  exists trailing,
    turn_rest_into_batch st = tempBatches st ++ trailing /\
    (trailing = [] /\ batchVector st = [] \/
     trailing = [batchVector st] /\ batchVector st <> []).
Proof.
  unfold turn_rest_into_batch, toBatch.
  destruct (batchVector st) as [|s bv].
  - exists []. rewrite app_nil_r. auto.
  - exists [s :: bv]. split; [reflexivity|]. right. split; [reflexivity|discriminate].
Qed.

Lemma cut_body_fixed_count (s : Sample) (st : CutState) :
  fixed_count_active o stats ->
  cut_body cmp o stats sets s st =
  emit_if sets (length (batchVector st ++ [s]) =? maxBatchSize st)
          (pq_pop cmp (maxiBatch st)) (batchVector st ++ [s])
          (currentWords st) (lengths st) (maxBatchSize st) (tempBatches st).
Proof.
  intros [Hw Hnodyn]. unfold cut_body, useDynamicBatching, mbWords.
  rewrite Hw. simpl.
  destruct Hnodyn as [-> | ->]; [|destruct (mini_batch_fit o)]; reflexivity.
Qed.

Lemma cut_body_fixed_inv (m : nat) (s : Sample) (st : CutState) :
  fixed_count_active o stats ->
  fixed_inv m st -> fixed_inv m (cut_body cmp o stats sets s st).
Proof.
  intros Hact (Hm & Hlt & Hall). rewrite cut_body_fixed_count by assumption.
  unfold emit_if, fixed_inv, toBatch, size. rewrite length_app. simpl.
  destruct (length (batchVector st) + 1 =? maxBatchSize st) eqn:E; simpl.
  - apply Nat.eqb_eq in E. split; [exact Hm|]. split; [intros; lia|].
    apply Forall_app. split; [exact Hall|].
    constructor; [|constructor]. rewrite length_app. simpl. lia.
  - apply Nat.eqb_neq in E. split; [exact Hm|]. split; [|exact Hall].
    intros Hpos. rewrite length_app. simpl. specialize (Hlt Hpos). lia.
Qed.

Lemma cut_body_nonempty (s : Sample) (st : CutState) :
  oracle_positive o stats ->
  Forall (fun b : Batch => b <> []) (tempBatches st) ->
  Forall (fun b : Batch => b <> [])
         (tempBatches (cut_body cmp o stats sets s st)).
Proof.
  intros Hpos Hall.
  assert (Hsnoc : forall bv : Samples, bv ++ [s] <> [])
    by (intros [|x bv]; discriminate).
  assert (Hemit : forall mk q bv w l m,
             (mk = true -> bv <> []) ->
             Forall (fun b : Batch => b <> [])
                    (tempBatches (emit_if sets mk q bv w l m (tempBatches st)))).
  { intros mk q bv w l m Hbv. rewrite emit_if_temp. apply Forall_app.
    split; [exact Hall|]. destruct mk; constructor; [now apply Hbv|constructor]. }
  unfold cut_body, useDynamicBatching, oracle_positive in *.
  rewrite last_snoc, removelast_snoc.
  destruct (mini_batch_fit o); [destruct stats as [f|]|].
  - specialize (Hpos (record_max 0 s (lengths st))).
    destruct (f (record_max 0 s (lengths st)) <? length (batchVector st ++ [s])) eqn:E.
    + apply Hemit. intros _. apply Nat.ltb_lt in E.
      rewrite length_app in E. simpl in E.
      destruct (batchVector st); [simpl in E; lia|discriminate].
    + apply Hemit. intros _. apply Hsnoc.
  - destruct (0 <? mbWords o); apply Hemit; intros _; apply Hsnoc.
  - destruct (0 <? mbWords o); apply Hemit; intros _; apply Hsnoc.
Qed.

Lemma field_maxima_snoc (bv : Samples) (s : Sample) :
  field_maxima sets (bv ++ [s]) = record_max 0 s (field_maxima sets bv).
Proof. unfold field_maxima. now rewrite fold_left_app. Qed.
End CutInvariants.

Lemma cut_body_fit_inv (cmp : Sample -> Sample -> bool) (o : Options)
      (f : BatchStats) (sets : nat) (s : Sample) (st : CutState) :
  mini_batch_fit o = true ->
  fit_inv f sets st -> fit_inv f sets (cut_body cmp o (Some f) sets s st).
Proof.
  intros Hfit (Hlens & Hroom & Hall).
  unfold cut_body, useDynamicBatching. rewrite Hfit, last_snoc, removelast_snoc.
  assert (Hmax : record_max 0 s (lengths st)
                 = field_maxima sets (batchVector st ++ [s]))
    by (rewrite field_maxima_snoc, Hlens; reflexivity).
  set (lens := record_max 0 s (lengths st)) in *.
  unfold emit_if, fit_inv, toBatch.
  destruct (f lens <? length (batchVector st ++ [s])) eqn:Elt.
  - apply Nat.ltb_lt in Elt.
    assert (Hle : (f lens <=? length (batchVector st ++ [s])) = true)
      by (apply Nat.leb_le; lia).
    rewrite Hle. simpl. split; [reflexivity|]. split; [intros H; now elim H|].
    apply Forall_app. split; [exact Hall|]. constructor; [|constructor].
    unfold fits, size. rewrite <- Hlens.
    destruct (batchVector st) as [|x bv] eqn:Ebv; [simpl; lia|].
    assert (Hne : x :: bv <> []) by discriminate.
    specialize (Hroom Hne). lia.
  - apply Nat.ltb_ge in Elt.
    destruct (f lens <=? length (batchVector st ++ [s])) eqn:Ele; simpl.
    + apply Nat.leb_le in Ele. split; [reflexivity|].
      split; [intros H; now elim H|].
      apply Forall_app. split; [exact Hall|]. constructor; [|constructor].
      unfold fits, size. rewrite <- Hmax. lia.
    + apply Nat.leb_gt in Ele. split; [exact Hmax|]. split; [|exact Hall].
      intros _. exact Ele.
Qed.

(** ** The reading loop, the worker and the protocol *)

Lemma read_loop_queue (maxSize : nat) (cur : list Sample) :
  forall q sets,
    snd (fst (read_loop cur q sets maxSize)) = q ++ firstn (maxSize - length q) cur.
Proof.
  induction cur as [|s rest IH]; intros q sets; simpl.
  - now rewrite firstn_nil, app_nil_r.
  - unfold pq_size. destruct (length q <? maxSize) eqn:Hlt.
    + apply Nat.ltb_lt in Hlt.
      replace (maxSize - length q) with (S (maxSize - length q - 1)) by lia.
      destruct (length (pq_push s q) =? maxSize) eqn:Heq; simpl.
      * apply Nat.eqb_eq in Heq. rewrite pq_push_length in Heq.
        replace (maxSize - length q - 1) with 0 by lia. reflexivity.
      * rewrite IH, pq_push_length. unfold pq_push.
        rewrite <- app_assoc. simpl.
        replace (maxSize - S (length q)) with (maxSize - length q - 1) by lia.
        reflexivity.
    + apply Nat.ltb_ge in Hlt.
      replace (maxSize - length q) with 0 by lia. simpl. now rewrite app_nil_r.
Qed.

Section MoreGeneratorFacts.
Variable DataSet : Type.
Variable RNGState : Type.
Variable ds_stream : DataSet -> list Sample.
Variable ds_shuffle : DataSet -> DataSet.
Variable ds_reset : DataSet -> DataSet.
Variable ds_restore : TrainingState RNGState -> DataSet -> DataSet.
Variable std_shuffle : RNGState -> list Batch -> list Batch * RNGState.
Variable cmpNone : Sample -> Sample -> bool.

Hypothesis std_shuffle_perm :
  forall eng l, Permutation (fst (std_shuffle eng l)) l.

Let BG := BatchGenerator DataSet RNGState.

Local Abbreviation fetchBatches' := (fetchBatches ds_stream std_shuffle cmpNone).
Local Abbreviation next' := (next ds_stream std_shuffle cmpNone).
Local Abbreviation drain' := (drain ds_stream std_shuffle cmpNone).
Local Abbreviation start_of' := (start_of ds_stream).
Local Abbreviation window' := (window ds_stream).
Local Abbreviation prepare' := (prepare ds_shuffle ds_reset).
Local Abbreviation prepared' := (prepared ds_shuffle ds_reset).
Local Abbreviation epoch_data' := (epoch_data ds_shuffle ds_reset).
Local Abbreviation fast_forward' := (fast_forward ds_stream std_shuffle cmpNone).
Local Abbreviation restore' :=
  (restore ds_stream ds_shuffle ds_reset ds_restore std_shuffle cmpNone).
Local Abbreviation reachable' :=
  (reachable ds_stream ds_shuffle ds_reset ds_restore std_shuffle cmpNone).
Local Abbreviation next_times' := (next_times ds_stream std_shuffle cmpNone).
Local Abbreviation window_sets' := (window_sets ds_stream).

Lemma window_chunk (g : BG) :
  window' g = firstn (maxSize_of (options_ g)) (start_of' g).
Proof.
  unfold window, fill_window. rewrite read_loop_queue. simpl.
  now rewrite Nat.sub_0_r.
Qed.

(** X1 (reading loop).  The window a run of the worker reads is the next
    [maxSize] samples of what the iterator has left (all of it when fewer
    are left); and with a capacity above 0 the following run starts right
    after them: no sample is skipped or read twice between windows. *)
Theorem worker_takes_next_chunk (g : BG) :
  window' g = firstn (maxSize_of (options_ g)) (start_of' g) /\
  forall fuel swath g',
    0 < maxSize_of (options_ g) ->
    fetchBatches' fuel g = Some (swath, g') ->
    start_of' g' = skipn (maxSize_of (options_ g)) (start_of' g).
Proof.
  split; [apply window_chunk|].
  intros fuel swath g' Hmax Hfetch.
  rewrite fetchBatches_cut in Hfetch.
  destruct (cut_window ds_stream cmpNone fuel g); [|discriminate].
  inversion Hfetch; subst; clear Hfetch.
  unfold start_of at 1. simpl.
  pose proof (window_end_tl ds_stream g Hmax) as Htl.
  assert (Hskip : skipn (length (window' g)) (start_of' g)
                  = skipn (maxSize_of (options_ g)) (start_of' g)).
  { rewrite window_chunk, length_firstn.
    destruct (Nat.le_ge_cases (maxSize_of (options_ g)) (length (start_of' g))).
    - now rewrite Nat.min_l.
    - rewrite Nat.min_r by assumption. now rewrite !skipn_all2 by lia. }
  rewrite <- Hskip, <- Htl. now destruct (window_end ds_stream g).
Qed.

(** The state the cutting loop ends in. *)
Lemma cut_window_final (fuel : nat) (g : BG) (temp : list Batch) :
  cut_window ds_stream cmpNone fuel g = Some temp ->
  exists st,
    cut_loop (select_cmp cmpNone (options_ g)) (options_ g) (stats_ g)
             (window_sets' g) fuel
             {| maxiBatch := window' g; batchVector := []; currentWords := 0;
                lengths := repeat 0 (window_sets' g);
                maxBatchSize := size_t_of_int (mini_batch (options_ g));
                tempBatches := [] |} = Some st /\
    temp = turn_rest_into_batch st.
Proof.
  unfold cut_window, window, window_sets.
  destruct (fill_window ds_stream g) as [[cur q] sets]. simpl.
  destruct (cut_loop _ _ _ _ _ _) as [st|]; [|discriminate].
  intros H; inversion H; subst. exists st. auto.
Qed.

(** What holds of every batch of the cutting loop holds of every batch the
    worker returns. *)
Lemma fetchBatches_Forall (P : Batch -> Prop) (fuel : nat) (g g' : BG)
      (swath temp : list Batch) :
  cut_window ds_stream cmpNone fuel g = Some temp ->
  fetchBatches' fuel g = Some (swath, g') ->
  Forall P temp -> Forall P swath.
Proof.
  intros Hcut Hfetch Hall. rewrite fetchBatches_cut, Hcut in Hfetch.
  inversion Hfetch; subst; clear Hfetch.
  destruct (shuffle_ g); [|exact Hall].
  eapply Permutation_Forall; [apply Permutation_sym, std_shuffle_perm|exact Hall].
Qed.

Lemma fixed_count_oracle_positive (o : Options) (stats : option BatchStats) :
  fixed_count_active o stats -> oracle_positive o stats.
Proof.
  intros [_ [H | H]]; unfold oracle_positive; rewrite H; auto.
  now destruct (mini_batch_fit o).
Qed.

(** X2 (fixed count).  With the fixed-count branch in force the worker
    returns, its batches hold exactly the samples of the window, each
    once, and of these batches all but possibly the trailing one have
    exactly mini-batch samples; the trailing one is not empty and, for a
    mini-batch above 0, has fewer. *)
Theorem fixed_count_batches (fuel : nat) (g : BG) :
  fixed_count_active (options_ g) (stats_ g) ->
  2 * length (window' g) <= fuel ->
  let m := size_t_of_int (mini_batch (options_ g)) in
  exists swath g' full trailing,
    fetchBatches' fuel g = Some (swath, g') /\
    Permutation (concat swath) (window' g) /\
    Permutation swath (full ++ trailing) /\
    (shuffle_ g = false -> swath = full ++ trailing) /\
    Forall (fun b : Batch => size b = m) full /\
    (trailing = [] \/
     exists b, trailing = [b] /\ b <> [] /\ (0 < m -> size b < m)).
Proof.
  intros Hact Hfuel m.
  destruct (cut_window_total ds_stream cmpNone g
              (fixed_count_oracle_positive Hact) Hfuel) as [temp Hcut].
  destruct (cut_window_final _ _ Hcut) as (st & Hloop & Htemp).
  assert (Hinv : fixed_inv m st).
  { eapply cut_loop_invariant; [|exact Hloop|].
    - intros st0 s _. now apply cut_body_fixed_inv.
    - split; [reflexivity|]. split; [simpl; lia|constructor]. }
  destruct Hinv as (_ & Hlt & Hall).
  destruct (turn_rest_split st) as (trailing & Hsplit & Htrail).
  destruct (fetchBatches' fuel g) as [[swath g']|] eqn:Hfetch;
    [|rewrite fetchBatches_cut, Hcut in Hfetch; discriminate].
  pose proof (fetchBatches_perm _ _ _ std_shuffle_perm _ _ Hfetch) as Hwin.
  rewrite fetchBatches_cut, Hcut in Hfetch.
  injection Hfetch as Hswath _.
  exists swath, g', (tempBatches st), trailing.
  split; [reflexivity|]. split; [exact Hwin|].
  rewrite <- Hswath, Htemp, Hsplit.
  split; [|split; [|split]].
  - destruct (shuffle_ g); [apply std_shuffle_perm|apply Permutation_refl].
  - intros ->. reflexivity.
  - exact Hall.
  - destruct Htrail as [[-> _] | [-> Hne]]; [now left|right].
    exists (batchVector st). split; [reflexivity|]. split; [exact Hne|exact Hlt].
Qed.

(** X3 (dynamic batching).  Every batch the worker returns under dynamic
    batching, the trailing one and those emitted after a push-back
    included, has at most as many samples as the oracle allows for the
    maximum field lengths of that very batch; and the worker returns when
    the oracle never answers 0. *)
Theorem dynamic_fit_batches_fit :
  (forall (fuel : nat) (g g' : BG) (findBatchSize : BatchStats)
          (swath : list Batch),
      mini_batch_fit (options_ g) = true ->
      stats_ g = Some findBatchSize ->
      fetchBatches' fuel g = Some (swath, g') ->
      Forall (fits findBatchSize (window_sets' g)) swath) /\
  (forall (fuel : nat) (g : BG) (findBatchSize : BatchStats),
      mini_batch_fit (options_ g) = true ->
      stats_ g = Some findBatchSize ->
      (forall lens, 0 < findBatchSize lens) ->
      2 * length (window' g) <= fuel ->
      exists swath g',
        fetchBatches' fuel g = Some (swath, g') /\
        Forall (fits findBatchSize (window_sets' g)) swath).
Proof.
  assert (Hpart : forall (fuel : nat) (g g' : BG) (findBatchSize : BatchStats)
                         (swath : list Batch),
             mini_batch_fit (options_ g) = true ->
             stats_ g = Some findBatchSize ->
             fetchBatches' fuel g = Some (swath, g') ->
             Forall (fits findBatchSize (window_sets' g)) swath).
  { intros fuel g g' f swath Hfit Hstats Hfetch.
    destruct (cut_window ds_stream cmpNone fuel g) as [temp|] eqn:Hcut;
      [|rewrite fetchBatches_cut, Hcut in Hfetch; discriminate].
    eapply fetchBatches_Forall; [exact Hcut|exact Hfetch|].
    destruct (cut_window_final _ _ Hcut) as (st & Hloop & ->).
    rewrite Hstats in Hloop.
    assert (Hinv : fit_inv f (window_sets' g) st).
    { eapply cut_loop_invariant; [|exact Hloop|].
      - intros st0 s _. now apply cut_body_fit_inv.
      - split; [reflexivity|]. split; [intros H; now elim H|constructor]. }
    destruct Hinv as (Hlens & Hroom & Hall).
    destruct (turn_rest_split st) as (trailing & -> & Htrail).
    apply Forall_app. split; [exact Hall|].
    destruct Htrail as [[-> _] | [-> Hne]]; constructor; [|constructor].
    unfold fits, size. rewrite <- Hlens. specialize (Hroom Hne). lia. }
  split; [exact Hpart|].
  intros fuel g f Hfit Hstats Hpos Hfuel.
  destruct (@fetchBatches_total _ _ ds_stream std_shuffle cmpNone fuel g)
    as (swath & g' & Hfetch); [|exact Hfuel|].
  - unfold oracle_positive. rewrite Hfit, Hstats. exact Hpos.
  - exists swath, g'. split; [exact Hfetch|]. eapply Hpart; eassumption.
Qed.

(** X4 (no empty batch).  When the oracle never answers 0 (or is not
    asked), the worker returns and none of its batches is empty: [toBatch]
    is never given an empty vector. *)
Theorem batches_never_empty (fuel : nat) (g : BG) :
  oracle_positive (options_ g) (stats_ g) ->
  2 * length (window' g) <= fuel ->
  exists swath g',
    fetchBatches' fuel g = Some (swath, g') /\
    Forall (fun b : Batch => b <> []) swath.
Proof.
  intros Hpos Hfuel.
  destruct (cut_window_total ds_stream cmpNone g Hpos Hfuel) as [temp Hcut].
  destruct (@fetchBatches_total _ _ ds_stream std_shuffle cmpNone fuel g Hpos Hfuel)
    as (swath & g' & Hfetch).
  exists swath, g'. split; [exact Hfetch|].
  eapply fetchBatches_Forall; [exact Hcut|exact Hfetch|].
  destruct (cut_window_final _ _ Hcut) as (st & Hloop & ->).
  assert (Hinv : Forall (fun b : Batch => b <> []) (tempBatches st)).
  { pattern st.
    eapply cut_loop_invariant; [|exact Hloop|constructor].
    intros st0 s _. now apply cut_body_nonempty. }
  destruct (turn_rest_split st) as (trailing & -> & Htrail).
  apply Forall_app. split; [exact Hinv|].
  destruct Htrail as [[-> _] | [-> Hne]]; constructor; [exact Hne|constructor].
Qed.
End MoreGeneratorFacts.

Section MoreProtocol.
Variable DataSet : Type.
Variable RNGState : Type.
Variable ds_stream : DataSet -> list Sample.
Variable ds_shuffle : DataSet -> DataSet.
Variable ds_reset : DataSet -> DataSet.
Variable ds_restore : TrainingState RNGState -> DataSet -> DataSet.
Variable std_shuffle : RNGState -> list Batch -> list Batch * RNGState.
Variable cmpNone : Sample -> Sample -> bool.

Hypothesis std_shuffle_perm :
  forall eng l, Permutation (fst (std_shuffle eng l)) l.

Let BG := BatchGenerator DataSet RNGState.

Local Abbreviation fetchBatches' := (fetchBatches ds_stream std_shuffle cmpNone).
Local Abbreviation next' := (next ds_stream std_shuffle cmpNone).
Local Abbreviation drain' := (drain ds_stream std_shuffle cmpNone).
Local Abbreviation start_of' := (start_of ds_stream).
Local Abbreviation window' := (window ds_stream).
Local Abbreviation prepare' := (prepare ds_shuffle ds_reset).
Local Abbreviation prepared' := (prepared ds_shuffle ds_reset).
Local Abbreviation epoch_data' := (epoch_data ds_shuffle ds_reset).
Local Abbreviation fast_forward' := (fast_forward ds_stream std_shuffle cmpNone).
Local Abbreviation restore' :=
  (restore ds_stream ds_shuffle ds_reset ds_restore std_shuffle cmpNone).
Local Abbreviation reachable' :=
  (reachable ds_stream ds_shuffle ds_reset ds_restore std_shuffle cmpNone).
Local Abbreviation next_times' := (next_times ds_stream std_shuffle cmpNone).
Local Abbreviation for_each_batch' := (for_each_batch ds_stream std_shuffle cmpNone).
Local Abbreviation range_for' := (range_for ds_stream std_shuffle cmpNone).

(** X5 (aborts of [next]).  [next] aborts exactly when nothing is buffered
    and no task is pending, and then on the "none pending" check: the check
    against restarting a running task never fires from inside [next]. *)
Theorem next_aborts_only_when_idle (fuel : nat) (g : BG) (msg : string) :
  next' fuel g = Abort msg <->
  bufferedBatches_ g = [] /\ futureBufferedBatches_ g = false /\ msg = msg_wait.
Proof.
  unfold next, pop_front, fetchBatchesAsync. split.
  - destruct (bufferedBatches_ g) as [|b rest]; [|discriminate].
    destruct (futureBufferedBatches_ g); simpl.
    + destruct (fetchBatches' fuel g) as [[swath g1]|]; [|discriminate].
      destruct swath; simpl; discriminate.
    + intros H; inversion H; auto.
  - intros (-> & -> & ->). reflexivity.
Qed.

(** X6 ([prepare] in mid-epoch).  After [next] has handed out a batch, a
    [prepare] on a generator not marked restored aborts on the "still
    running" check: an epoch cannot be started again before [next] has
    returned null. *)
Theorem prepare_mid_epoch_aborts (fuel : nat) (shuffle : bool) (g g' : BG)
        (batch : Batch) :
  reachable' g ->
  next' fuel g = Ret (Some batch, g') ->
  restored_ g' = false ->
  prepare' shuffle g' = Abort msg_restart.
Proof.
  intros Hreach Hnext Hr.
  pose proof (reachable_slot Hreach) as Hinv.
  edestruct next_slot as [_ Hf]; [exact Hinv|exact Hnext|].
  unfold prepare, fetchBatchesAsync. rewrite Hr. simpl.
  rewrite Hf by discriminate. reflexivity.
Qed.

(** [next] leaves the restored mark as it is. *)
Lemma next_restored (fuel : nat) (g g' : BG) (r : BatchPtr) :
  next' fuel g = Ret (r, g') -> restored_ g' = restored_ g.
Proof.
  unfold next, pop_front, fetchBatchesAsync.
  destruct (bufferedBatches_ g) as [|b rest].
  - destruct (futureBufferedBatches_ g); simpl; [|discriminate].
    rewrite fetchBatches_cut.
    destruct (cut_window ds_stream cmpNone fuel g) as [temp|]; [|discriminate].
    destruct (if shuffle_ g then fst (std_shuffle (eng_ g) temp) else temp);
      simpl; intros H; inversion H; subst; reflexivity.
  - intros H; inversion H; subst; reflexivity.
Qed.

(** X11 (what [next] leaves alone).  A call of [next] that returns changes
    neither the dataset, the options, the oracle, the shuffle flag nor the
    restored mark; and without shuffling it leaves the engine as it is. *)
Theorem next_frame (fuel : nat) (g g' : BG) (r : BatchPtr) :
  next' fuel g = Ret (r, g') ->
  data_ g' = data_ g /\ options_ g' = options_ g /\ stats_ g' = stats_ g /\
  shuffle_ g' = shuffle_ g /\ restored_ g' = restored_ g /\
  (shuffle_ g = false -> eng_ g' = eng_ g).
Proof.
  unfold next, pop_front, fetchBatchesAsync.
  destruct (bufferedBatches_ g) as [|b rest].
  - destruct (futureBufferedBatches_ g); simpl; [|discriminate].
    rewrite fetchBatches_cut.
    destruct (cut_window ds_stream cmpNone fuel g) as [temp|]; [|discriminate].
    destruct (if shuffle_ g then fst (std_shuffle (eng_ g) temp) else temp);
      simpl; intros H; inversion H; subst; simpl;
      repeat split; intros ->; reflexivity.
  - intros H; inversion H; subst; simpl. repeat split; reflexivity.
Qed.

Lemma fast_forward_restored (fuel n : nat) :
  forall g g', fast_forward' fuel n g = Ret g' -> restored_ g' = restored_ g.
Proof.
  induction n as [|n IH]; intros g g' H; simpl in H.
  - inversion H; subst. reflexivity.
  - destruct (next' fuel g) as [[r g1]| |] eqn:Hn; simpl in H; try discriminate.
    rewrite (IH _ _ H). eapply next_restored; exact Hn.
Qed.

Lemma prepare_clears_restored (shuffle : bool) (g g' : BG) :
  prepare' shuffle g = Ret g' -> restored_ g' = false.
Proof.
  unfold prepare, fetchBatchesAsync.
  destruct (restored_ g) eqn:Hr; simpl.
  - intros H; inversion H; subst. reflexivity.
  - destruct (futureBufferedBatches_ g); [discriminate|].
    intros H; inversion H; subst. reflexivity.
Qed.

Lemma set_restored_back (g : BG) :
  restored_ g = false -> set_restored false (set_restored true g) = g.
Proof. destruct g; simpl; intros ->; reflexivity. Qed.

(** X8 (resuming).  When [restore] returns true on a generator that was not
    marked restored, the [prepare] the caller issues next leaves the
    generator exactly in the state reached by [prepare(shuffle)] followed
    by [batchesEpoch] calls of [next] (on the re-seeded generator for an
    epoch above 1): the batches that follow are those an uninterrupted
    epoch hands out after its first [batchesEpoch] ones. *)
Theorem restore_then_prepare (fuel : nat) (state : TrainingState RNGState)
        (shuffle shuffle' : bool) (g g' : BG) :
  restored_ g = false ->
  restore' fuel state shuffle g = Ret (true, g') ->
  exists g2 g3,
    prepare' shuffle
             (if 1 <? epochs state then restore_seed ds_restore state g else g)
    = Ret g2 /\
    next_times' fuel (batchesEpoch state) g2 g3 /\
    prepare' shuffle' g' = Ret g3.
Proof.
  intros Hr. unfold restore.
  destruct ((epochs state =? 1) && (batchesEpoch state =? 0)); [discriminate|].
  destruct (no_restore_corpus (options_ g)); [discriminate|].
  set (g1 := if 1 <? epochs state then restore_seed ds_restore state g else g).
  destruct (prepare' shuffle g1) as [g2| |] eqn:Hp; simpl; try discriminate.
  destruct (fast_forward' fuel (batchesEpoch state) g2) as [g3| |] eqn:Hff;
    simpl; try discriminate.
  intros H; inversion H; subst g'. exists g2, g3.
  split; [reflexivity|]. split; [now apply fast_forward_next_times|].
  assert (Hr3 : restored_ g3 = false).
  { erewrite fast_forward_restored by exact Hff.
    eapply prepare_clears_restored; exact Hp. }
  unfold prepare. simpl. now rewrite set_restored_back.
Qed.

Lemma fast_forward_past_end (fuel : nat) (n : nat) :
  forall (g g' : BG) (bs : list Batch),
    drain' fuel n g = Ret (bs, g') ->
    forall k, length bs + 2 <= k -> fast_forward' fuel k g = Abort msg_wait.
Proof.
  induction n as [|n IH]; intros g g' bs H k Hk; simpl in H; [discriminate|].
  destruct (next' fuel g) as [[r g1]| |] eqn:Hn; simpl in H; try discriminate.
  destruct k as [|k]; [lia|]. simpl. rewrite Hn. simpl.
  destruct r as [b|].
  - destruct (drain' fuel n g1) as [[bs' g2]| |] eqn:Hd; simpl in H;
      try discriminate.
    inversion H; subst. simpl in Hk. eapply IH; [exact Hd|lia].
  - inversion H; subst. simpl in Hk.
    edestruct next_null_idle as [Hf Hb]; [exact Hn|].
    destruct k as [|k]; [lia|]. simpl.
    now rewrite (next_idle_aborts ds_stream std_shuffle cmpNone fuel g' Hf Hb).
Qed.

(** X9 (resuming past the end).  When the training state counts at least
    two more batches than the epoch has, the fast-forward of [restore] runs
    into the "none pending" check: [restore] aborts. *)
Theorem restore_past_end_aborts (fuel n : nat) (state : TrainingState RNGState)
        (shuffle : bool) (g g2 g3 : BG) (bs : list Batch) :
  ~ (epochs state = 1 /\ batchesEpoch state = 0) ->
  no_restore_corpus (options_ g) = false ->
  prepare' shuffle
           (if 1 <? epochs state then restore_seed ds_restore state g else g)
  = Ret g2 ->
  drain' fuel n g2 = Ret (bs, g3) ->
  length bs + 2 <= batchesEpoch state ->
  restore' fuel state shuffle g = Abort msg_wait.
Proof.
  intros Hnot Hno Hp Hd Hk. unfold restore. rewrite Hno.
  assert (Hfirst : (epochs state =? 1) && (batchesEpoch state =? 0) = false).
  { apply andb_false_iff.
    destruct (epochs state =? 1) eqn:E1; [|now left].
    destruct (batchesEpoch state =? 0) eqn:E2; [|now right].
    apply Nat.eqb_eq in E1, E2. now elim Hnot. }
  rewrite Hfirst, Hp. simpl.
  erewrite fast_forward_past_end; [reflexivity|exact Hd|exact Hk].
Qed.

(** X10 (capacity 0).  With mini-batch times maxi-batch equal to 0 the
    worker reads nothing: the first [next] after [prepare] returns null and
    the epoch is over, whatever the dataset holds. *)
Theorem zero_capacity_empty_epoch (fuel : nat) (shuffle : bool) (g : BG) :
  futureBufferedBatches_ g = false ->
  restored_ g = false ->
  bufferedBatches_ g = [] ->
  maxSize_of (options_ g) = 0 ->
  exists g1 g2,
    prepare' shuffle g = Ret g1 /\
    next' fuel g1 = Ret (None, g2) /\
    futureBufferedBatches_ g2 = false.
Proof.
  intros Hf Hr Hb Hmax.
  set (g1 := prepared' shuffle g).
  assert (Hw : window' g1 = []).
  { rewrite window_chunk. unfold g1 at 1. simpl. now rewrite Hmax. }
  destruct (fetchBatches_nothing_read ds_stream std_shuffle cmpNone
              std_shuffle_perm fuel g1 Hw) as [gw Hfetch].
  exists g1, (joined ds_stream g1 [] (eng_ gw)).
  split; [now apply prepare_fresh|].
  split; [|reflexivity].
  exact (next_join _ _ _ _ g1 Hb eq_refl Hfetch).
Qed.

Lemma drain_range_for (fuel : nat) (n : nat) :
  forall (g : BG) x,
    drain' fuel n g = Ret x ->
    (r <- next' fuel g ;; range_for' fuel n {| it_current_ := fst r |} (snd r))
    = Ret x.
Proof.
  induction n as [|n IH]; intros g x H; simpl in H; [discriminate|].
  destruct (next' fuel g) as [[r g1]| |] eqn:Hn; simpl in H; try discriminate.
  simpl. destruct r as [b|]; simpl.
  - destruct (drain' fuel n g1) as [x'| |] eqn:Hd; simpl in H; try discriminate.
    pose proof (IH _ _ Hd) as Hi. unfold increment.
    destruct (next' fuel g1) as [[r1 g2]| |]; simpl in *; try discriminate.
    rewrite Hi. simpl. exact H.
  - exact H.
Qed.

(** X7 (iterator).  The loop [for(it = begin(); it != end(); ++it)] over a
    generator prepared for an epoch (window capacity above 0, oracle never
    answering 0) ends; the batches it dereferences hold exactly the samples
    of the dataset, each once; and it leaves the prefetch slot idle. *)
Theorem range_for_visits_epoch (fuel : nat) (shuffle : bool) (g : BG) :
  futureBufferedBatches_ g = false ->
  restored_ g = false ->
  bufferedBatches_ g = [] ->
  oracle_positive (options_ g) (stats_ g) ->
  0 < maxSize_of (options_ g) ->
  2 * length (ds_stream (epoch_data' shuffle g)) <= fuel ->
  exists g1 n bs g2,
    prepare' shuffle g = Ret g1 /\
    for_each_batch' fuel n g1 = Ret (bs, g2) /\
    Permutation (concat bs) (ds_stream (data_ g1)) /\
    futureBufferedBatches_ g2 = false.
Proof.
  intros Hf Hr Hb Hpos Hmax Hfuel.
  destruct (@drain_epoch _ _ ds_stream std_shuffle cmpNone std_shuffle_perm
              fuel (length (ds_stream (epoch_data' shuffle g)))
              (prepared' shuffle g))
    as (n & bs & g2 & Hdrain & Hperm & Hf2 & _); try assumption; try reflexivity.
  exists (prepared' shuffle g), n, bs, g2.
  split; [now apply prepare_fresh|].
  split; [|split; assumption].
  unfold for_each_batch, begin_.
  apply drain_range_for in Hdrain as Hrange.
  destruct (next' fuel (prepared' shuffle g)) as [[r g1]| |]; simpl in *;
    try discriminate.
  exact Hrange.
Qed.
End MoreProtocol.

(** X12 (capacity).  For a non-negative mini-batch and maxi-batch whose
    product is below 2^64 the window capacity is their product: the
    [size_t] arithmetic does not wrap. *)
Theorem capacity_in_range (o : Options) :
  (0 <= mini_batch o)%Z -> (0 <= maxi_batch o)%Z ->
  (mini_batch o * maxi_batch o < 2 ^ 64)%Z ->
  maxSize_of o = Z.to_nat (mini_batch o * maxi_batch o).
Proof.
  intros Hmini Hmaxi Hprod. unfold maxSize_of, size_t_mul, size_t_of_int.
  assert (H64 : (0 < 2 ^ 64)%Z) by reflexivity.
  destruct (Z.eq_dec (mini_batch o) 0) as [E0|E0].
  - rewrite E0. reflexivity.
  - destruct (Z.eq_dec (maxi_batch o) 0) as [E1|E1].
    + rewrite E1.
      replace (Z.of_nat (Z.to_nat (0 mod 2 ^ 64))) with 0%Z by reflexivity.
      rewrite !Z.mul_0_r. reflexivity.
    + assert (mini_batch o < 2 ^ 64)%Z by nia.
      assert (maxi_batch o < 2 ^ 64)%Z by nia.
      rewrite (Z.mod_small (mini_batch o)), (Z.mod_small (maxi_batch o)) by lia.
      rewrite !Z2Nat.id by lia. now rewrite Z.mod_small by lia.
Qed.

(** * Concrete runs *)

(** Solves [Permutation l l'] for closed lists in normal form. *)
Ltac perm_concrete :=
  repeat lazymatch goal with
    | |- Permutation [] [] => apply perm_nil
    | |- Permutation (?x :: ?l) ?r =>
        let rec go pre post :=
          lazymatch post with
          | x :: ?post' =>
              apply (@Permutation_cons_app _ l (rev pre) post' x); cbn [rev app]
          | ?y :: ?post' => go (y :: pre) post'
          end in
        go (@nil Sample) r
    end.

Module Runs.
Import Scenario.

Lemma shuffle_batches_perm (eng : RNG) (l : list Batch) :
  Permutation (fst (shuffle_batches eng l)) l.
Proof. simpl. apply Permutation_sym, Permutation_rev. Qed.

(** C2, as stated, fails: the epoch's batches are not
    (1,2,3) (4,5,6) (7,8,9) (10). *)
Lemma scenario1_not_one_sorted_window :
  epoch 20 5 false scenario1
  <> Ret (map (map sample_of_length) [[1; 2; 3]; [4; 5; 6]; [7; 8; 9]; [10]]).
Proof. vm_compute. discriminate. Qed.

(** C2, as the code has it by design.  The window holds mini-batch times
    maxi-batch = 6 samples, so the ten samples come in two windows, the
    first six and then the other four; the epoch has four batches of 3, 3,
    3 and 1 samples, the first two made of the samples of the first window
    and the last two of those of the second. *)
Theorem scenario1_two_windows :
  maxSize_of scenario1_options = 6 /\
  window stream (prepared keep keep false scenario1) = firstn 6 scenario1_data /\
  exists b1 b2 b3 b4,
    epoch 20 5 false scenario1 = Ret [b1; b2; b3; b4] /\
    map size [b1; b2; b3; b4] = [3; 3; 3; 1] /\
    Permutation (b1 ++ b2) (firstn 6 scenario1_data) /\
    Permutation (b3 ++ b4) (skipn 6 scenario1_data).
Proof.
  split; [vm_compute; reflexivity|].
  split; [vm_compute; reflexivity|].
  exists (map sample_of_length [8; 7; 5]), (map sample_of_length [3; 2; 1]),
         (map sample_of_length [10; 9; 6]), (map sample_of_length [4]).
  split; [vm_compute; reflexivity|].
  split; [vm_compute; reflexivity|].
  split; vm_compute; perm_concrete.
Qed.

(** C8 at a failing input: two samples of 1 and 2 words in one window
    sorted by src.  The comparator is [cmpSrc], the top of the queue is the
    sample of 2 words, and the batch has the longer sample first. *)
Theorem src_window_pops_longest_first :
  select_cmp none_order two_samples_options = cmpSrc /\
  pq_top cmpSrc (pq_push (sample_of_length 2) (pq_push (sample_of_length 1) []))
  = Some (sample_of_length 2) /\
  epoch 20 5 false
        (generator (map sample_of_length [1; 2]) two_samples_options None)
  = Ret [map sample_of_length [2; 1]].
Proof. repeat split; vm_compute; reflexivity. Qed.

(** C1, as stated, fails: with one sample in the dataset, after the batch
    and the null that ends the epoch, one more [next] aborts. *)
Lemma second_null_aborts :
  next_results 20 3 one_sample
  = [Ret (Some [sample_of_length 1]); Ret None; Abort msg_wait] /\
  next_results 20 3 one_sample
  <> [Ret (Some [sample_of_length 1]); Ret None; Ret None].
Proof. split; vm_compute; [reflexivity|discriminate]. Qed.

(** C5 at scenario 2's first window and over scenario 1's epoch. *)
Lemma conservation_witness :
  (exists swath g',
      fetchBatches stream shuffle_batches none_order 20 scenario2
      = Some (swath, g') /\
      list_sum (map size swath) = length (window stream scenario2) /\
      Permutation (concat swath) (window stream scenario2) /\
      window stream scenario2
      = firstn (length (window stream scenario2)) (start_of stream scenario2)) /\
  (exists g1 n bs g2,
      prepare_ false scenario1 = Ret g1 /\
      drain stream shuffle_batches none_order 20 n g1 = Ret (bs, g2) /\
      list_sum (map size bs) = length (stream (data_ g1)) /\
      Permutation (concat bs) (stream (data_ g1))).
Proof.
  split.
  - destruct (proj1 (proj2 (conservation stream keep keep shuffle_batches
                              none_order shuffle_batches_perm)) 20 scenario2)
      as (swath & g' & Hfetch).
    + exact I.
    + vm_compute. lia.
    + exists swath, g'. split; [exact Hfetch|].
      exact (proj1 (conservation stream keep keep shuffle_batches
                      none_order shuffle_batches_perm) 20 scenario2 g' swath Hfetch).
  - apply (proj2 (proj2 (conservation stream keep keep shuffle_batches
                           none_order shuffle_batches_perm)) 20 false scenario1).
    + reflexivity.
    + reflexivity.
    + reflexivity.
    + exact I.
    + vm_compute. lia.
    + vm_compute. lia.
Defined.

(** C1 (as the code has it) on an empty dataset and over scenario 1's
    epoch. *)
Lemma end_of_epoch_witness :
  (exists g',
      next_ 0 (prepared keep keep false empty_dataset) = Ret (None, g') /\
      futureBufferedBatches_ g' = false /\ bufferedBatches_ g' = [] /\
      forall fuel', next_ fuel' g' = Abort msg_wait) /\
  (exists g1 n bs g2,
      prepare_ false scenario1 = Ret g1 /\
      drain stream shuffle_batches none_order 20 n g1 = Ret (bs, g2) /\
      forall fuel', next_ fuel' g2 = Abort msg_wait).
Proof.
  split.
  - eexists. split; [reflexivity|].
    apply (proj1 (end_of_epoch_then_abort stream keep keep shuffle_batches
                    none_order shuffle_batches_perm)
             0 (prepared keep keep false empty_dataset)).
    reflexivity.
  - apply (proj2 (end_of_epoch_then_abort stream keep keep shuffle_batches
                    none_order shuffle_batches_perm) 20 false scenario1).
    + reflexivity.
    + reflexivity.
    + reflexivity.
    + exact I.
    + vm_compute. lia.
    + vm_compute. lia.
Defined.

(** C10 on the empty dataset, with shuffling. *)
Lemma empty_dataset_witness :
  exists g1 gw g2,
    prepare_ true empty_dataset = Ret g1 /\
    window stream g1 = [] /\
    fetchBatches stream shuffle_batches none_order 0 g1 = Some ([], gw) /\
    next_ 0 g1 = Ret (None, g2) /\
    futureBufferedBatches_ g2 = false /\
    bufferedBatches_ g2 = [].
Proof.
  apply (empty_dataset_first_next_null stream keep keep shuffle_batches
           none_order shuffle_batches_perm 0 true empty_dataset);
    reflexivity.
Defined.

(** C3 on an iteration that goes over the budget of 10, one that reaches
    it, and scenario 2's first window. *)
Lemma word_budget_witness :
  (let st := {| maxiBatch := [sample_of_length 7]; batchVector := [sample_of_length 4];
                currentWords := 4; lengths := [0]; maxBatchSize := 3;
                tempBatches := [] |} in
   let st' := cut_step none_order scenario2_options None 1 st in
   tempBatches st' = [toBatch [sample_of_length 4; sample_of_length 7]] /\
   batchVector st' = [] /\ currentWords st' = 0) /\
  (let st := {| maxiBatch := [sample_of_length 6]; batchVector := [sample_of_length 4];
                currentWords := 4; lengths := [0]; maxBatchSize := 3;
                tempBatches := [] |} in
   let st' := cut_step none_order scenario2_options None 1 st in
   tempBatches st' = [] /\
   batchVector st' = [sample_of_length 4; sample_of_length 6] /\
   currentWords st' = 10) /\
  (exists swath g' full trailing,
      fetchBatches stream shuffle_batches none_order 20 scenario2
      = Some (swath, g') /\
      Permutation (concat swath) (window stream scenario2) /\
      Permutation swath (full ++ trailing) /\
      (shuffle_ scenario2 = false -> swath = full ++ trailing) /\
      Forall (over_budget 10) full /\
      (trailing = [] \/
       exists b, trailing = [b] /\ b <> [] /\ words0 b <= 10)).
Proof.
  assert (Hactive : word_budget_active scenario2_options None)
    by (split; [vm_compute; lia|left; reflexivity]).
  split; [|split].
  - apply (proj1 (proj1 (word_budget_batches stream shuffle_batches none_order
                           shuffle_batches_perm)
                    none_order scenario2_options None 1
                    {| maxiBatch := [sample_of_length 7];
                       batchVector := [sample_of_length 4];
                       currentWords := 4; lengths := [0]; maxBatchSize := 3;
                       tempBatches := [] |}
                    (sample_of_length 7) Hactive eq_refl)).
    vm_compute. lia.
  - apply (proj2 (proj1 (word_budget_batches stream shuffle_batches none_order
                           shuffle_batches_perm)
                    none_order scenario2_options None 1
                    {| maxiBatch := [sample_of_length 6];
                       batchVector := [sample_of_length 4];
                       currentWords := 4; lengths := [0]; maxBatchSize := 3;
                       tempBatches := [] |}
                    (sample_of_length 6) Hactive eq_refl)).
    vm_compute. lia.
  - apply (proj2 (word_budget_batches stream shuffle_batches none_order
                    shuffle_batches_perm) 20 scenario2 Hactive).
    vm_compute. lia.
Defined.


Lemma one_sample_reachable :
  reachable stream keep keep restore_ds shuffle_batches none_order one_sample.
Proof.
  apply reach_prepare
    with (g := generator [sample_of_length 1] one_sample_options None)
         (shuffle := false).
  - apply reach_new.
  - reflexivity.
Defined.

(** C6 on the first [next] over a dataset of one sample. *)
Lemma prefetch_overlap_witness :
  exists batch g',
    next_ 20 one_sample = Ret (Some batch, g') /\
    futureBufferedBatches_ g' = true.
Proof.
  eexists. eexists. split; [reflexivity|].
  apply (@prefetch_overlap DS RNG stream keep keep restore_ds shuffle_batches
           none_order 20 one_sample _ _ one_sample_reachable eq_refl).
Defined.

(** C7 on a fresh training state, with no-restore-corpus, and on a
    resumed state over scenario 1. *)
Lemma restore_witness :
  restore stream keep keep restore_ds shuffle_batches none_order
          20 fresh false scenario1 = Ret (false, scenario1) /\
  restore stream keep keep restore_ds shuffle_batches none_order
          20 resumed false (generator scenario1_data no_restore_options None)
  = Ret (false, generator scenario1_data no_restore_options None) /\
  forall (b : bool) (g' : BatchGenerator DS RNG),
    restore stream keep keep restore_ds shuffle_batches none_order
            20 resumed false scenario1 = Ret (b, g') <->
    b = true /\
    exists g1 g2 g3,
      (1 < epochs resumed ->
       g1 = restore_seed restore_ds resumed scenario1 /\
       data_ g1 = restore_ds resumed (data_ scenario1) /\
       eng_ g1 = seedBatch resumed) /\
      (epochs resumed <= 1 -> g1 = scenario1) /\
      prepare_ false g1 = Ret g2 /\
      next_times stream shuffle_batches none_order 20 (batchesEpoch resumed) g2 g3 /\
      g' = set_restored true g3 /\
      restored_ g' = true /\
      forall shuffle', prepare_ shuffle' g' = Ret (set_restored false g').
Proof.
  split; [|split].
  - apply (proj1 (restore_behaviour stream keep keep restore_ds shuffle_batches
                    none_order 20 fresh false scenario1)); reflexivity.
  - apply (proj1 (proj2 (restore_behaviour stream keep keep restore_ds
                           shuffle_batches none_order 20 resumed false
                           (generator scenario1_data no_restore_options None))));
      reflexivity.
  - apply (proj2 (proj2 (restore_behaviour stream keep keep restore_ds
                           shuffle_batches none_order 20 resumed false scenario1))).
    + intros [H _]. discriminate H.
    + reflexivity.
Defined.

(** Resuming scenario 1 in epoch 2 after one batch: the engine is the one
    of the training state and the batches go on with the second. *)
Example restore_resumed_runs :
  exists g',
    restore stream keep keep restore_ds shuffle_batches none_order
            20 resumed false scenario1 = Ret (true, g') /\
    eng_ g' = 7 /\ restored_ g' = true /\
    next_results 20 4 g'
    = [Ret (Some (map sample_of_length [3; 2; 1]));
       Ret (Some (map sample_of_length [10; 9; 6]));
       Ret (Some (map sample_of_length [4])); Ret None].
Proof. eexists. repeat split; vm_compute; reflexivity. Qed.

End Runs.

(** * Further concrete runs *)

Module MoreRuns.
Import Scenario MoreScenario.

(** X1 on scenario 1's first window. *)
Lemma next_chunk_witness :
  exists swath g',
    fetchBatches stream shuffle_batches none_order 20 scenario1_prepared
    = Some (swath, g') /\
    start_of stream g' = skipn 6 (start_of stream scenario1_prepared).
Proof.
  eexists. eexists. split; [reflexivity|].
  eapply (proj2 (@worker_takes_next_chunk DS RNG stream shuffle_batches
                   none_order scenario1_prepared) 20).
  - vm_compute. lia.
  - reflexivity.
Defined.

(** X2 on scenario 1's first window. *)
Lemma fixed_count_witness :
  exists swath g' full trailing,
    fetchBatches stream shuffle_batches none_order 20 scenario1_prepared
    = Some (swath, g') /\
    Permutation (concat swath) (window stream scenario1_prepared) /\
    Permutation swath (full ++ trailing) /\
    (shuffle_ scenario1_prepared = false -> swath = full ++ trailing) /\
    Forall (fun b : Batch => size b = 3) full /\
    (trailing = [] \/
     exists b, trailing = [b] /\ b <> [] /\ (0 < 3 -> size b < 3)).
Proof.
  apply (@fixed_count_batches DS RNG stream shuffle_batches none_order
           Runs.shuffle_batches_perm 20 scenario1_prepared).
  - split; [reflexivity|left; reflexivity].
  - vm_compute. lia.
Defined.

(** X3 on scenario 1's samples under the small oracle. *)
Lemma dynamic_fit_witness :
  (exists swath g',
      fetchBatches stream shuffle_batches none_order 20 fit_scenario
      = Some (swath, g') /\
      Forall (fits small_oracle (window_sets stream fit_scenario)) swath) /\
  (forall swath g',
      fetchBatches stream shuffle_batches none_order 20 fit_scenario
      = Some (swath, g') ->
      Forall (fits small_oracle (window_sets stream fit_scenario)) swath).
Proof.
  split.
  - apply (proj2 (@dynamic_fit_batches_fit DS RNG stream shuffle_batches
                    none_order Runs.shuffle_batches_perm)
             20 fit_scenario small_oracle eq_refl eq_refl).
    + intros lens. unfold small_oracle.
      destruct (existsb (fun l => 5 <=? l) lens); lia.
    + vm_compute. lia.
  - intros swath g'.
    apply (proj1 (@dynamic_fit_batches_fit DS RNG stream shuffle_batches
                    none_order Runs.shuffle_batches_perm)
             20 fit_scenario g' small_oracle swath eq_refl eq_refl).
Defined.

(** X4 on scenario 1's samples under the small oracle. *)
Lemma never_empty_witness :
  exists swath g',
    fetchBatches stream shuffle_batches none_order 20 fit_scenario
    = Some (swath, g') /\
    Forall (fun b : Batch => b <> []) swath.
Proof.
  apply (@batches_never_empty DS RNG stream shuffle_batches none_order
           Runs.shuffle_batches_perm 20 fit_scenario).
  - intros lens. unfold small_oracle.
    destruct (existsb (fun l => 5 <=? l) lens); lia.
  - vm_compute. lia.
Defined.

(** X6 after the first batch of a dataset of one sample. *)
Lemma prepare_mid_epoch_witness :
  exists batch g',
    next_ 20 one_sample = Ret (Some batch, g') /\
    prepare_ true g' = Abort msg_restart.
Proof.
  eexists. eexists. split; [reflexivity|].
  eapply (@prepare_mid_epoch_aborts DS RNG stream keep keep restore_ds
            shuffle_batches none_order 20 true one_sample).
  - exact Runs.one_sample_reachable.
  - reflexivity.
  - reflexivity.
Defined.

(** X7 over scenario 1's epoch. *)
Lemma range_for_witness :
  exists g1 n bs g2,
    prepare_ false scenario1 = Ret g1 /\
    for_each_batch stream shuffle_batches none_order 20 n g1 = Ret (bs, g2) /\
    Permutation (concat bs) (stream (data_ g1)) /\
    futureBufferedBatches_ g2 = false.
Proof.
  apply (@range_for_visits_epoch DS RNG stream keep keep shuffle_batches
           none_order Runs.shuffle_batches_perm 20 false scenario1).
  - reflexivity.
  - reflexivity.
  - reflexivity.
  - exact I.
  - vm_compute. lia.
  - vm_compute. lia.
Defined.

(** X8 on scenario 1 resumed in epoch 2 after one batch. *)
Lemma restore_then_prepare_witness :
  restore stream keep keep restore_ds shuffle_batches none_order
          20 resumed false scenario1 = Ret (true, scenario1_resumed) /\
  exists g2 g3,
    prepare_ false (restore_seed restore_ds resumed scenario1) = Ret g2 /\
    next_times stream shuffle_batches none_order 20 1 g2 g3 /\
    prepare_ true scenario1_resumed = Ret g3.
Proof.
  split; [vm_compute; reflexivity|].
  apply (@restore_then_prepare DS RNG stream keep keep restore_ds
           shuffle_batches none_order 20 resumed false true scenario1).
  - reflexivity.
  - vm_compute. reflexivity.
Defined.

(** X9: scenario 1's epoch has four batches, the state counts six. *)
Lemma restore_past_end_witness :
  restore stream keep keep restore_ds shuffle_batches none_order
          20 too_far false scenario1 = Abort msg_wait.
Proof.
  apply (@restore_past_end_aborts DS RNG stream keep keep restore_ds
           shuffle_batches none_order 20 5 too_far false scenario1
           scenario1_prepared scenario1_drained scenario1_batches).
  - intros [_ H]. discriminate H.
  - reflexivity.
  - reflexivity.
  - vm_compute. reflexivity.
  - vm_compute. lia.
Defined.

(** X10 on scenario 1's samples with mini-batch 0. *)
Lemma zero_capacity_witness :
  exists g1 g2,
    prepare_ false zero_capacity = Ret g1 /\
    next_ 20 g1 = Ret (None, g2) /\
    futureBufferedBatches_ g2 = false.
Proof.
  apply (@zero_capacity_empty_epoch DS RNG stream keep keep shuffle_batches
           none_order Runs.shuffle_batches_perm 20 false zero_capacity);
    reflexivity.
Defined.

(** X11 on the first [next] of scenario 1. *)
Lemma next_frame_witness :
  exists batch g',
    next_ 20 scenario1_prepared = Ret (Some batch, g') /\
    data_ g' = data_ scenario1_prepared /\
    options_ g' = options_ scenario1_prepared /\
    stats_ g' = stats_ scenario1_prepared /\
    shuffle_ g' = shuffle_ scenario1_prepared /\
    restored_ g' = restored_ scenario1_prepared /\
    (shuffle_ scenario1_prepared = false -> eng_ g' = eng_ scenario1_prepared).
Proof.
  eexists. eexists. split; [reflexivity|].
  eapply (@next_frame DS RNG stream shuffle_batches none_order 20
            scenario1_prepared).
  reflexivity.
Defined.

(** X12 on scenario 1's options. *)
Lemma capacity_witness :
  maxSize_of scenario1_options = Z.to_nat (3 * 2).
Proof.
  apply (@capacity_in_range scenario1_options); vm_compute; congruence.
Defined.
End MoreRuns.
